(** * Session state store and API key access layer of llm-eduhub

    A shallow embedding of [src/lib/stores/chat-store.ts] (the zustand
    store holding the chat session) and of [src/lib/db/api-keys.ts] (the
    CRUD layer over the [api_keys] table), followed by the properties the
    specification states about them. *)

From Stdlib Require Import List String Bool Arith NArith ZArith Lia.
From Stdlib Require Import DecimalString DecimalN.
Import ListNotations.

Local Open Scope string_scope.
Local Open Scope list_scope.

(* ===================================================================== *)
(** ** The chat store: [src/lib/stores/chat-store.ts]                      *)
(* ===================================================================== *)

Module ChatStore.

(** [interface MessageAttachment]. *)
Record MessageAttachment := mkAttachment {
  att_id : string;
  att_name : string;
  att_size : Z;
  att_type : string;
  upload_file_id : string
}.

(** [interface ChatMessage].  A field marked [?] in the source may be
    missing from the object: [None].  [error?: string | null] has three
    shapes: missing ([None]), [null] ([Some None]) and a string. *)
Record ChatMessage := mkMessage {
  id : string;
  text : string;
  isUser : bool;
  isStreaming : option bool;
  wasManuallyStopped : option bool;
  error : option (option string);
  attachments : option (list MessageAttachment)
}.

(** [Omit<ChatMessage, 'id'>], the argument of [addMessage].  The type
    leaves [id] out of what the caller has to give, but an object that has
    one (a [ChatMessage] held in a variable, say) is still of this type:
    only object literals are checked for properties in excess.  [d_id] is
    the [id] such an object carries, [None] when it carries none. *)
Record MessageData := mkData {
  d_id : option string;
  d_text : string;
  d_isUser : bool;
  d_isStreaming : option bool;
  d_wasManuallyStopped : option bool;
  d_error : option (option string);
  d_attachments : option (list MessageAttachment)
}.

(** The data part of [interface ChatState]. *)
Record ChatState := mkState {
  messages : list ChatMessage;
  streamingMessageId : option string;
  isWaitingForResponse : bool;
  currentConversationId : option string;
  currentTaskId : option string
}.

(** The initial state handed to [create]. *)
Definition initialState : ChatState :=
  {| messages := [];
     streamingMessageId := None;
     isWaitingForResponse := false;
     currentConversationId := None;
     currentTaskId := None |}.

(** JavaScript truthiness of an optional boolean field. *)
Definition truthy (b : option bool) : bool :=
  match b with Some true => true | _ => false end.

(** [state.streamingMessageId === id ? null : state.streamingMessageId] *)
Definition clearIfPointsAt (i : string) (p : option string) : option string :=
  match p with
  | Some q => if String.eqb q i then None else Some q
  | None => None
  end.

(** The template literal of [addMessage]:
    [`msg-${Date.now()}-${Math.random().toString(36).substring(2, 9)}`].
    The clock reading [now] and the random suffix [rnd] are the two values
    the environment supplies. *)
Definition freshId (now : N) (rnd : string) : string :=
  "msg-" ++ NilZero.string_of_uint (N.to_uint now) ++ "-" ++ rnd.

(** [{ id, ...messageData }]: the spread comes after [id], so an [id]
    carried by the data replaces the one given. *)
Definition withId (i : string) (d : MessageData) : ChatMessage :=
  {| id := match d_id d with
           | Some carried => carried
           | None => i
           end;
     text := d_text d;
     isUser := d_isUser d;
     isStreaming := d_isStreaming d;
     wasManuallyStopped := d_wasManuallyStopped d;
     error := d_error d;
     attachments := d_attachments d |}.

(** [{ ...message, text: message.text + chunk }] *)
Definition withChunk (chunk : string) (m : ChatMessage) : ChatMessage :=
  {| id := id m;
     text := text m ++ chunk;
     isUser := isUser m;
     isStreaming := isStreaming m;
     wasManuallyStopped := wasManuallyStopped m;
     error := error m;
     attachments := attachments m |}.

(** [{ ...message, isStreaming: false }] *)
Definition withStreamingOff (m : ChatMessage) : ChatMessage :=
  {| id := id m;
     text := text m;
     isUser := isUser m;
     isStreaming := Some false;
     wasManuallyStopped := wasManuallyStopped m;
     error := error m;
     attachments := attachments m |}.

(** [{ ...message, wasManuallyStopped: true, isStreaming: false }] *)
Definition withManualStop (m : ChatMessage) : ChatMessage :=
  {| id := id m;
     text := text m;
     isUser := isUser m;
     isStreaming := Some false;
     wasManuallyStopped := Some true;
     error := error m;
     attachments := attachments m |}.

(** [{ ...message, error }] *)
Definition withError (e : option string) (m : ChatMessage) : ChatMessage :=
  {| id := id m;
     text := text m;
     isUser := isUser m;
     isStreaming := isStreaming m;
     wasManuallyStopped := wasManuallyStopped m;
     error := Some e;
     attachments := attachments m |}.

(** [state.messages.map(message => message.id === id ? f(message) : message)] *)
Definition mapMatching (i : string) (f : ChatMessage -> ChatMessage)
    (l : list ChatMessage) : list ChatMessage :=
  map (fun message => if String.eqb (id message) i then f message else message) l.

(** *** The actions.  Each one is a single call of zustand's [set] with an
    updater: a function from the state to the fields it replaces. *)

Definition addMessage (now : N) (rnd : string) (messageData : MessageData)
    (state : ChatState) : ChatMessage * ChatState :=
  let i := freshId now rnd in
  let newMessage := withId i messageData in
  (newMessage,
   {| messages := messages state ++ [newMessage];
      streamingMessageId :=
        if truthy (d_isStreaming messageData) then Some i
        else streamingMessageId state;
      isWaitingForResponse := isWaitingForResponse state;
      currentConversationId := currentConversationId state;
      currentTaskId := currentTaskId state |}).

Definition appendMessageChunk (i chunk : string) (state : ChatState) : ChatState :=
  {| messages := mapMatching i (withChunk chunk) (messages state);
     streamingMessageId := streamingMessageId state;
     isWaitingForResponse := isWaitingForResponse state;
     currentConversationId := currentConversationId state;
     currentTaskId := currentTaskId state |}.

Definition finalizeStreamingMessage (i : string) (state : ChatState) : ChatState :=
  {| messages := mapMatching i withStreamingOff (messages state);
     streamingMessageId := clearIfPointsAt i (streamingMessageId state);
     isWaitingForResponse := isWaitingForResponse state;
     currentConversationId := currentConversationId state;
     currentTaskId := currentTaskId state |}.

Definition markAsManuallyStopped (i : string) (state : ChatState) : ChatState :=
  {| messages := mapMatching i withManualStop (messages state);
     streamingMessageId := clearIfPointsAt i (streamingMessageId state);
     isWaitingForResponse := isWaitingForResponse state;
     currentConversationId := currentConversationId state;
     currentTaskId := currentTaskId state |}.

Definition setMessageError (i : string) (e : option string) (state : ChatState)
    : ChatState :=
  {| messages := mapMatching i (withError e) (messages state);
     streamingMessageId := streamingMessageId state;
     isWaitingForResponse := isWaitingForResponse state;
     currentConversationId := currentConversationId state;
     currentTaskId := currentTaskId state |}.

Definition clearMessages (state : ChatState) : ChatState :=
  {| messages := [];
     streamingMessageId := None;
     isWaitingForResponse := isWaitingForResponse state;
     currentConversationId := currentConversationId state;
     currentTaskId := currentTaskId state |}.

Definition setIsWaitingForResponse (status : bool) (state : ChatState) : ChatState :=
  {| messages := messages state;
     streamingMessageId := streamingMessageId state;
     isWaitingForResponse := status;
     currentConversationId := currentConversationId state;
     currentTaskId := currentTaskId state |}.

Definition setCurrentConversationId (conversationId : option string)
    (state : ChatState) : ChatState :=
  {| messages := messages state;
     streamingMessageId := streamingMessageId state;
     isWaitingForResponse := isWaitingForResponse state;
     currentConversationId := conversationId;
     currentTaskId := currentTaskId state |}.

Definition setCurrentTaskId (taskId : option string) (state : ChatState)
    : ChatState :=
  {| messages := messages state;
     streamingMessageId := streamingMessageId state;
     isWaitingForResponse := isWaitingForResponse state;
     currentConversationId := currentConversationId state;
     currentTaskId := taskId |}.

(** [selectIsProcessing]:
    [state.isWaitingForResponse || state.streamingMessageId !== null] *)
Definition selectIsProcessing (state : ChatState) : bool :=
  isWaitingForResponse state ||
  match streamingMessageId state with Some _ => true | None => false end.

(** *** Sequences of store operations *)

Inductive Action :=
| AddMessage (now : N) (rnd : string) (messageData : MessageData)
| AppendMessageChunk (i chunk : string)
| FinalizeStreamingMessage (i : string)
| MarkAsManuallyStopped (i : string)
| SetMessageError (i : string) (e : option string)
| ClearMessages
| SetIsWaitingForResponse (status : bool)
| SetCurrentConversationId (conversationId : option string)
| SetCurrentTaskId (taskId : option string).

Definition step (state : ChatState) (a : Action) : ChatState :=
  match a with
  | AddMessage now rnd d => snd (addMessage now rnd d state)
  | AppendMessageChunk i chunk => appendMessageChunk i chunk state
  | FinalizeStreamingMessage i => finalizeStreamingMessage i state
  | MarkAsManuallyStopped i => markAsManuallyStopped i state
  | SetMessageError i e => setMessageError i e state
  | ClearMessages => clearMessages state
  | SetIsWaitingForResponse b => setIsWaitingForResponse b state
  | SetCurrentConversationId c => setCurrentConversationId c state
  | SetCurrentTaskId t => setCurrentTaskId t state
  end.

(** The state after a sequence of operations, applied in order. *)
Definition run (state : ChatState) (acts : list Action) : ChatState :=
  fold_left step acts state.

(** *** The two invariants of the data model, as executable checks *)

(** The message is flagged as streaming: [isStreaming === true]. *)
Definition streamingNow (m : ChatMessage) : bool := truthy (isStreaming m).

(** How many messages of the list are flagged as streaming. *)
Definition streamingCount (l : list ChatMessage) : nat :=
  List.length (filter streamingNow l).

Definition atMostOneStreaming (state : ChatState) : Prop :=
  streamingCount (messages state) <= 1.

(** The pointer, when set, names a message of the list that is flagged as
    streaming. *)
Definition pointerValid (state : ChatState) : Prop :=
  match streamingMessageId state with
  | None => True
  | Some p =>
      exists m, In m (messages state) /\ id m = p /\ isStreaming m = Some true
  end.

(** An [addMessage] with [isStreaming: true] is issued only while no message
    is flagged as streaming; every other action is unrestricted. *)
Definition startsFreshStream (state : ChatState) (a : Action) : bool :=
  match a with
  | AddMessage _ _ d =>
      if truthy (d_isStreaming d)
      then Nat.eqb (streamingCount (messages state)) 0
      else true
  | _ => true
  end.

Fixpoint oneStreamAtATime (state : ChatState) (acts : list Action) : bool :=
  match acts with
  | [] => true
  | a :: rest => startsFreshStream state a && oneStreamAtATime (step state a) rest
  end.

(** The action is an [addMessage] whose data carries [isStreaming: true]. *)
Definition opensStream (a : Action) : bool :=
  match a with
  | AddMessage _ _ d => truthy (d_isStreaming d)
  | _ => false
  end.

(** *** Field-wise agreement of two messages, with the named fields left out *)

Definition sameButText (m m' : ChatMessage) : Prop :=
  id m' = id m /\ isUser m' = isUser m /\ isStreaming m' = isStreaming m /\
  wasManuallyStopped m' = wasManuallyStopped m /\ error m' = error m /\
  attachments m' = attachments m.

Definition sameButStreaming (m m' : ChatMessage) : Prop :=
  id m' = id m /\ text m' = text m /\ isUser m' = isUser m /\
  wasManuallyStopped m' = wasManuallyStopped m /\ error m' = error m /\
  attachments m' = attachments m.

Definition sameButStopFlags (m m' : ChatMessage) : Prop :=
  id m' = id m /\ text m' = text m /\ isUser m' = isUser m /\
  error m' = error m /\ attachments m' = attachments m.

(** The store fields other than [messages] and [streamingMessageId]. *)
Definition sameSessionFields (s s' : ChatState) : Prop :=
  isWaitingForResponse s' = isWaitingForResponse s /\
  currentConversationId s' = currentConversationId s /\
  currentTaskId s' = currentTaskId s.

(** *** How a stored message may differ from an earlier version of itself *)

(** The later text is the earlier text with something joined on the right. *)
Definition textGrows (m m' : ChatMessage) : Prop :=
  exists suffix, text m' = (text m ++ suffix)%string.

(** Same identity, text grown, and the two stop flags moved only towards
    the stopped side. *)
Definition evolves (m m' : ChatMessage) : Prop :=
  id m' = id m /\ isUser m' = isUser m /\ attachments m' = attachments m /\
  textGrows m m' /\
  (streamingNow m' = true -> streamingNow m = true) /\
  (wasManuallyStopped m = Some true -> wasManuallyStopped m' = Some true).

Definition isClear (a : Action) : bool :=
  match a with ClearMessages => true | _ => false end.

(** [NilZero.string_of_uint], used by [freshId], prints the empty numeral
    as ["0"]: the numeral it prints digit by digit. *)
Definition zeroForNil (d : Decimal.uint) : Decimal.uint :=
  match d with Decimal.Nil => Decimal.D0 Decimal.Nil | _ => d end.

(** The id an action aims at, for the four actions that rewrite messages. *)
Definition target (a : Action) : option string :=
  match a with
  | AppendMessageChunk i _ => Some i
  | FinalizeStreamingMessage i => Some i
  | MarkAsManuallyStopped i => Some i
  | SetMessageError i _ => Some i
  | _ => None
  end.

(** The clock readings and random suffixes a sequence of actions consumes,
    one pair per [addMessage]. *)
Definition draws (acts : list Action) : list (N * string) :=
  flat_map (fun a => match a with
                     | AddMessage now rnd _ => [(now, rnd)]
                     | _ => []
                     end) acts.

(** The data handed to [addMessage] carries no [id] of its own, as its
    type intends; every other action passes. *)
Definition carriesNoId (a : Action) : bool :=
  match a with
  | AddMessage _ _ d => match d_id d with None => true | Some _ => false end
  | _ => true
  end.

(** A streaming assistant message copied from a stored one, [id] included. *)
Definition copyOfStored (carried t : string) : MessageData :=
  {| d_id := Some carried; d_text := t; d_isUser := false;
     d_isStreaming := Some true; d_wasManuallyStopped := None;
     d_error := None; d_attachments := None |}.

(** The ids of the stored messages, in display order. *)
Definition ids (state : ChatState) : list string := map id (messages state).

(** *** Sample data *)

Definition userSays (t : string) : MessageData :=
  {| d_id := None; d_text := t; d_isUser := true; d_isStreaming := None;
     d_wasManuallyStopped := None; d_error := None; d_attachments := None |}.

Definition assistantStreams (t : string) : MessageData :=
  {| d_id := None; d_text := t; d_isUser := false; d_isStreaming := Some true;
     d_wasManuallyStopped := None; d_error := None; d_attachments := None |}.

(** Two assistant messages opened one after the other, the first one never
    finalized. *)
Definition twoStreams : list Action :=
  [ AddMessage 1000 "k3x9q0a" (assistantStreams "");
    AddMessage 1001 "p7m2z4c" (assistantStreams "") ].

(** The scenario of the specification's section 8. *)
Definition idA : string := freshId 1001 "p7m2z4c".

Definition helloScenario : list Action :=
  [ AddMessage 1000 "k3x9q0a" (userSays "hi");
    AddMessage 1001 "p7m2z4c" (assistantStreams "");
    AppendMessageChunk idA "He";
    AppendMessageChunk idA "llo";
    FinalizeStreamingMessage idA ].

(** A session with one user message and one assistant message that is
    streaming and tracked by the pointer. *)
Definition midStream : ChatState :=
  run initialState
    [ AddMessage 1000 "k3x9q0a" (userSays "hi");
      AddMessage 1001 "p7m2z4c" (assistantStreams "He") ].

End ChatStore.

(* ===================================================================== *)
(** ** The API key access layer: [src/lib/db/api-keys.ts]                  *)
(* ===================================================================== *)

Module ApiKeys.

(** Modelled from the spec: the row type [ApiKey] of [../types/database],
    which the module imports; the columns are the ones section 6 of the
    specification lists for the [api_keys] table. *)
Record ApiKey := mkApiKey {
  id : string;
  service_instance_id : string;
  is_default : bool;
  key_value : string;
  created_at : string;
  updated_at : string
}.

(** [Omit<ApiKey, 'id' | 'created_at' | 'updated_at'>] *)
Record NewApiKey := mkNewApiKey {
  new_service_instance_id : string;
  new_is_default : bool;
  new_key_value : string
}.

(** [Partial<Omit<ApiKey, 'id' | 'created_at' | 'updated_at'>>]: a column
    that the object does not carry is [None]. *)
Record ApiKeyUpdates := mkUpdates {
  upd_service_instance_id : option string;
  upd_is_default : option bool;
  upd_key_value : option string
}.

(** What a call can end in: a value, or a thrown fault (for an [async]
    function, a rejected promise). *)
Definition Fault := string.

Inductive outcome (A : Type) : Type :=
| Returned (a : A)
| Thrown (e : Fault).
Arguments Returned {A} a.
Arguments Thrown {A} e.

(** The [{ data, error }] pair every supabase query resolves to. *)
Definition PostgrestError := string.

Record Response (A : Type) := mkResponse {
  data : option A;
  error : option PostgrestError
}.
Arguments mkResponse {A} data error.
Arguments data {A} r.
Arguments error {A} r.

(** The queries the module sends, one constructor per builder chain. *)
Inductive Request :=
| SelectDefaultKey (serviceInstanceId : string)
    (* from('api_keys').select('*').eq('service_instance_id', _)
       .eq('is_default', true).single() *)
| InsertKey (row : NewApiKey)
    (* from('api_keys').insert(_).select().single() *)
| UpdateKey (rowId : string) (updates : ApiKeyUpdates)
    (* from('api_keys').update(_).eq('id', _).select().single() *)
| DeleteKey (rowId : string)
    (* from('api_keys').delete().eq('id', _) *)
| SelectKeyValue (apiKeyId : string)
    (* from('api_keys').select('key_value').eq('id', _).single() *)
| RpcIncrementUsage (key_id : string).
    (* rpc('increment_api_key_usage', { key_id }) *)

(** The lines written with [console.error], by the place that writes them. *)
Inductive Diagnostic :=
| FetchFailed (err : option PostgrestError)
| NoMasterKeyToEncrypt
| CreateFailed (err : option PostgrestError)
| UpdateFailed (err : option PostgrestError)
| DeleteFailed (err : PostgrestError)
| NoMasterKeyToDecrypt
| DecryptFailed (err : Fault)
| UsageUpdateFailed (err : PostgrestError).

(** What the module's calls leave behind: the queries that reached the
    backing table, oldest first, and the console. *)
Record World := mkWorld {
  requests : list Request;
  console : list Diagnostic
}.

Definition emptyWorld : World := {| requests := []; console := [] |}.

(** [process.env]: the one variable the module reads. *)
Record ProcessEnv := mkEnv {
  API_ENCRYPTION_KEY : option string
}.

(** The supabase client, as far as this module uses it. *)
Class Supabase := {
  selectDefaultKey : string -> Response ApiKey;
  insertKey : NewApiKey -> Response ApiKey;
  updateKey : string -> ApiKeyUpdates -> Response ApiKey;
  deleteKey : string -> Response unit;
  selectKeyValue : string -> Response string;
  rpcIncrementUsage : string -> Response unit
}.

(** [../utils/encryption]: both functions may throw. *)
Class Encryption := {
  encryptApiKey : string -> string -> outcome string;
  decryptApiKey : string -> string -> outcome string
}.

(** *** A small monad for the module's effects *)

Definition Async (A : Type) : Type := World -> outcome A * World.

Definition ret {A} (a : A) : Async A := fun w => (Returned a, w).

Definition bind {A B} (m : Async A) (k : A -> Async B) : Async B :=
  fun w =>
    match m w with
    | (Returned a, w') => k a w'
    | (Thrown e, w') => (Thrown e, w')
    end.

Notation "x <- m ;; k" := (bind m (fun x => k))
  (at level 61, m at next level, right associativity).
Notation "m ;;; k" := (bind m (fun _ => k))
  (at level 61, right associativity).

(** A call into a collaborator that may throw. *)
Definition call {A} (o : outcome A) : Async A := fun w => (o, w).

(** [try { body } catch (err) { handler }] *)
Definition tryCatch {A} (body : Async A) (handler : Fault -> Async A) : Async A :=
  fun w =>
    match body w with
    | (Thrown e, w') => handler e w'
    | r => r
    end.

Definition consoleError (d : Diagnostic) : Async unit :=
  fun w => (Returned tt, {| requests := requests w; console := console w ++ [d] |}).

(** [await] of a query: the query reaches the table, the response comes
    back. *)
Definition await {A} (r : Request) (resp : Response A) : Async (Response A) :=
  fun w => (Returned resp, {| requests := requests w ++ [r]; console := console w |}).

(** [!masterKey] for a [string | undefined]: unset or the empty string. *)
Definition falsy (s : option string) : bool :=
  match s with
  | None => true
  | Some k => String.eqb k ""
  end.

(** [{ ...apiKey, key_value: keyValue }] *)
Definition withKeyValue (apiKey : NewApiKey) (keyValue : string) : NewApiKey :=
  {| new_service_instance_id := new_service_instance_id apiKey;
     new_is_default := new_is_default apiKey;
     new_key_value := keyValue |}.

(** [updates.key_value = ...] *)
Definition setKeyValue (updates : ApiKeyUpdates) (keyValue : string) : ApiKeyUpdates :=
  {| upd_service_instance_id := upd_service_instance_id updates;
     upd_is_default := upd_is_default updates;
     upd_key_value := Some keyValue |}.

Section Operations.

Context {supabase : Supabase} {encryption : Encryption}.
Variable env : ProcessEnv.

Definition getApiKeyByServiceInstance (serviceInstanceId : string)
    : Async (option ApiKey) :=
  resp <- await (SelectDefaultKey serviceInstanceId)
                (selectDefaultKey serviceInstanceId) ;;
  match error resp, data resp with
  | None, Some row => ret (Some row)
  | err, _ => consoleError (FetchFailed err) ;;; ret None
  end.

(** The tail of [createApiKey], from the insert on. *)
Definition insertAndRead (apiKey : NewApiKey) (keyValue : string)
    : Async (option ApiKey) :=
  let row := withKeyValue apiKey keyValue in
  resp <- await (InsertKey row) (insertKey row) ;;
  match error resp, data resp with
  | None, Some created => ret (Some created)
  | err, _ => consoleError (CreateFailed err) ;;; ret None
  end.

Definition createApiKey (apiKey : NewApiKey) (isEncrypted : bool)
    : Async (option ApiKey) :=
  if negb isEncrypted then
    let masterKey := API_ENCRYPTION_KEY env in
    match masterKey with
    | Some k =>
        if falsy masterKey then consoleError NoMasterKeyToEncrypt ;;; ret None
        else
          keyValue <- call (encryptApiKey (new_key_value apiKey) k) ;;
          insertAndRead apiKey keyValue
    | None => consoleError NoMasterKeyToEncrypt ;;; ret None
    end
  else insertAndRead apiKey (new_key_value apiKey).

(** The tail of [updateApiKey], from the update on. *)
Definition updateAndRead (rowId : string) (updates : ApiKeyUpdates)
    : Async (option ApiKey) :=
  resp <- await (UpdateKey rowId updates) (updateKey rowId updates) ;;
  match error resp, data resp with
  | None, Some updated => ret (Some updated)
  | err, _ => consoleError (UpdateFailed err) ;;; ret None
  end.

Definition updateApiKey (rowId : string) (updates : ApiKeyUpdates)
    (isEncrypted : bool) : Async (option ApiKey) :=
  if negb (falsy (upd_key_value updates)) && negb isEncrypted then
    let masterKey := API_ENCRYPTION_KEY env in
    match masterKey, upd_key_value updates with
    | Some k, Some plain =>
        if falsy masterKey then consoleError NoMasterKeyToEncrypt ;;; ret None
        else
          keyValue <- call (encryptApiKey plain k) ;;
          updateAndRead rowId (setKeyValue updates keyValue)
    | _, _ => consoleError NoMasterKeyToEncrypt ;;; ret None
    end
  else updateAndRead rowId updates.

Definition deleteApiKey (rowId : string) : Async bool :=
  resp <- await (DeleteKey rowId) (deleteKey rowId) ;;
  match error resp with
  | Some err => consoleError (DeleteFailed err) ;;; ret false
  | None => ret true
  end.

Definition getDecryptedApiKey (apiKeyId : string) : Async (option string) :=
  resp <- await (SelectKeyValue apiKeyId) (selectKeyValue apiKeyId) ;;
  match error resp, data resp with
  | None, Some stored =>
      tryCatch
        (let masterKey := API_ENCRYPTION_KEY env in
         match masterKey with
         | Some k =>
             if falsy masterKey then consoleError NoMasterKeyToDecrypt ;;; ret None
             else
               plain <- call (decryptApiKey stored k) ;;
               ret (Some plain)
         | None => consoleError NoMasterKeyToDecrypt ;;; ret None
         end)
        (fun err => consoleError (DecryptFailed err) ;;; ret None)
  | err, _ => consoleError (FetchFailed err) ;;; ret None
  end.

Definition incrementApiKeyUsage (rowId : string) : Async bool :=
  resp <- await (RpcIncrementUsage rowId) (rpcIncrementUsage rowId) ;;
  match error resp with
  | Some err => consoleError (UsageUpdateFailed err) ;;; ret false
  | None => ret true
  end.

End Operations.

(** The call comes back with a value: no fault reaches the caller. *)
Definition returns {A} (m : Async A) (w : World) : Prop :=
  exists a w', m w = (Returned a, w').

(** What a call added to the console and to the queries sent, given the
    world before and the world after. *)
Definition logged (w w' : World) (ds : list Diagnostic) : Prop :=
  console w' = console w ++ ds.

Definition sent (w w' : World) (qs : list Request) : Prop :=
  requests w' = requests w ++ qs.

(** The sentinel of an operation that returns a row or a string: [null]. *)
Definition isNull {A} (r : option A) : bool :=
  match r with None => true | Some _ => false end.

(** The call wrote one line to the console when it came back with the
    sentinel, and none otherwise. *)
Definition logsExactlyFailures {A} (sentinel : A) (m : Async A) (w : World)
    : Prop :=
  (fst (m w) = Returned sentinel -> exists d, logged w (snd (m w)) [d]) /\
  (fst (m w) <> Returned sentinel -> logged w (snd (m w)) []).

(** *** Sample collaborators and inputs *)

(** A backend that accepts every query and answers with the row as stored. *)
Definition storedRow (rowId service keyValue : string) (isDefault : bool) : ApiKey :=
  {| id := rowId;
     service_instance_id := service;
     is_default := isDefault;
     key_value := keyValue;
     created_at := "2025-05-01T08:00:00Z";
     updated_at := "2025-05-01T08:00:00Z" |}.

Definition acceptingBackend : Supabase :=
  {| selectDefaultKey := fun service =>
       mkResponse (Some (storedRow "key-1" service "stored" true)) None;
     insertKey := fun row =>
       mkResponse (Some (storedRow "key-1" (new_service_instance_id row)
                                   (new_key_value row) (new_is_default row))) None;
     updateKey := fun rowId updates =>
       mkResponse (Some (storedRow rowId "dify-1"
                           match upd_key_value updates with
                           | Some v => v
                           | None => "stored"
                           end true)) None;
     deleteKey := fun _ => mkResponse (Some tt) None;
     selectKeyValue := fun _ => mkResponse (Some "stored") None;
     rpcIncrementUsage := fun _ => mkResponse (Some tt) None |}.

(** An encryption collaborator that only tags the value with the key. *)
Definition taggingEncryption : Encryption :=
  {| encryptApiKey := fun value masterKey =>
       Returned ("enc(" ++ masterKey ++ "):" ++ value)%string;
     decryptApiKey := fun value masterKey =>
       Returned ("dec(" ++ masterKey ++ "):" ++ value)%string |}.

(** An encryption collaborator whose cipher rejects the key it is given. *)
Definition faultyEncryption : Encryption :=
  {| encryptApiKey := fun _ _ => Thrown "Invalid key length";
     decryptApiKey := fun _ _ => Thrown "Invalid key length" |}.

(** An encryption collaborator that can undo what it did: it puts the key
    and a colon in front of the value, and refuses a value without them. *)
Definition prefixingEncryption : Encryption :=
  {| encryptApiKey := fun value masterKey =>
       Returned (masterKey ++ ":" ++ value)%string;
     decryptApiKey := fun value masterKey =>
       if String.prefix (masterKey ++ ":")%string value
       then Returned (String.substring (S (String.length masterKey))
                        (String.length value - S (String.length masterKey))
                        value)
       else Thrown "Malformed ciphertext" |}.

(** A backend whose table holds one value, whatever the query. *)
Definition backendHolding (stored : string) : Supabase :=
  {| selectDefaultKey := fun service =>
       mkResponse (Some (storedRow "key-1" service stored true)) None;
     insertKey := fun row =>
       mkResponse (Some (storedRow "key-1" (new_service_instance_id row)
                                   (new_key_value row) (new_is_default row))) None;
     updateKey := fun rowId _ =>
       mkResponse (Some (storedRow rowId "dify-1" stored true)) None;
     deleteKey := fun _ => mkResponse (Some tt) None;
     selectKeyValue := fun _ => mkResponse (Some stored) None;
     rpcIncrementUsage := fun _ => mkResponse (Some tt) None |}.

Definition withMasterKey : ProcessEnv := {| API_ENCRYPTION_KEY := Some "master" |}.
Definition noMasterKey : ProcessEnv := {| API_ENCRYPTION_KEY := None |}.

Definition plainKey : NewApiKey :=
  {| new_service_instance_id := "dify-1";
     new_is_default := true;
     new_key_value := "app-plain-key" |}.

Definition rotateKey : ApiKeyUpdates :=
  {| upd_service_instance_id := None;
     upd_is_default := None;
     upd_key_value := Some "app-next-key" |}.

(** An update that carries [key_value: ''], the empty string. *)
Definition emptyKeyUpdate : ApiKeyUpdates :=
  {| upd_service_instance_id := None;
     upd_is_default := None;
     upd_key_value := Some "" |}.

End ApiKeys.

(* ===================================================================== *)
(** ** Properties of the chat store                                        *)
(* ===================================================================== *)

Module ChatStoreSpec.
Import ChatStore.

(** The shape of a generated id. *)
Example freshId_shape : freshId 1001 "p7m2z4c" = "msg-1001-p7m2z4c".
Proof. reflexivity. Qed.

(** *** Lists rewritten by [mapMatching] *)

Lemma mapMatching_length i f l :
  List.length (mapMatching i f l) = List.length l.
Proof. unfold mapMatching. apply length_map. Qed.

Lemma mapMatching_nth i f l k :
  nth_error (mapMatching i f l) k =
  option_map (fun m => if String.eqb (id m) i then f m else m) (nth_error l k).
Proof. unfold mapMatching. apply nth_error_map. Qed.

Lemma mapMatching_absent i f l :
  (forall m, In m l -> id m <> i) -> mapMatching i f l = l.
Proof.
  induction l as [|m l IH]; intros Hno; simpl; [reflexivity|].
  destruct (String.eqb_spec (id m) i) as [E|_].
  - exfalso. apply (Hno m); [left; reflexivity | exact E].
  - f_equal. apply IH. intros m' Hin. apply Hno. right. exact Hin.
Qed.

Lemma mapMatching_keeps_others i f l m :
  In m l -> id m <> i -> In m (mapMatching i f l).
Proof.
  intros Hin Hne. unfold mapMatching.
  apply in_map_iff. exists m. split; [|exact Hin].
  destruct (String.eqb_spec (id m) i); [contradiction | reflexivity].
Qed.

Lemma mapMatching_image i f l m :
  In m l -> In (if String.eqb (id m) i then f m else m) (mapMatching i f l).
Proof.
  intros Hin. unfold mapMatching.
  apply in_map_iff. exists m. split; [reflexivity | exact Hin].
Qed.

Lemma mapMatching_origin i f l m' :
  In m' (mapMatching i f l) ->
  exists m, In m l /\ m' = (if String.eqb (id m) i then f m else m).
Proof.
  unfold mapMatching. intros Hin. apply in_map_iff in Hin.
  destruct Hin as [m [E Hin]]. exists m. split; [exact Hin | symmetry; exact E].
Qed.

(** *** Counting the messages flagged as streaming *)

Lemma streamingCount_cons m l :
  streamingCount (m :: l) =
  (if streamingNow m then 1 else 0) + streamingCount l.
Proof. unfold streamingCount. simpl. destruct (streamingNow m); reflexivity. Qed.

Lemma streamingCount_app l1 l2 :
  streamingCount (l1 ++ l2) = streamingCount l1 + streamingCount l2.
Proof. unfold streamingCount. rewrite filter_app, length_app. reflexivity. Qed.

(** A rewrite that never turns the flag on does not raise the count. *)
Lemma streamingCount_mapMatching_le i f l :
  (forall m, streamingNow (f m) = true -> streamingNow m = true) ->
  streamingCount (mapMatching i f l) <= streamingCount l.
Proof.
  intros Hf. induction l as [|m l IH]; [apply Nat.le_refl|].
  change (mapMatching i f (m :: l))
    with ((if String.eqb (id m) i then f m else m) :: mapMatching i f l).
  rewrite !streamingCount_cons.
  destruct (String.eqb (id m) i).
  - specialize (Hf m).
    destruct (streamingNow (f m)), (streamingNow m);
      try discriminate (Hf eq_refl); lia.
  - lia.
Qed.

Lemma step_streamingCount_le state a :
  opensStream a = false ->
  streamingCount (messages (step state a)) <= streamingCount (messages state).
Proof.
  destruct a; simpl; intros Hopen;
    try (apply streamingCount_mapMatching_le; intros m;
         unfold streamingNow; simpl; congruence);
    try apply Nat.le_refl; try apply Nat.le_0_l.
  rewrite streamingCount_app, streamingCount_cons.
  unfold streamingNow. simpl. rewrite Hopen.
  unfold streamingCount at 2. simpl. lia.
Qed.

Lemma step_streamingCount_fresh state a :
  startsFreshStream state a = true ->
  streamingCount (messages state) <= 1 ->
  streamingCount (messages (step state a)) <= 1.
Proof.
  intros Hfresh Hone.
  destruct (opensStream a) eqn:Hopen.
  - destruct a; simpl in Hopen; try discriminate.
    simpl in Hfresh. rewrite Hopen in Hfresh. apply Nat.eqb_eq in Hfresh.
    simpl. rewrite streamingCount_app, streamingCount_cons, Hfresh.
    unfold streamingNow. simpl. rewrite Hopen.
    unfold streamingCount. simpl. lia.
  - pose proof (step_streamingCount_le state a Hopen). lia.
Qed.

Lemma run_app state acts1 acts2 :
  run state (acts1 ++ acts2) = run (run state acts1) acts2.
Proof. unfold run. apply fold_left_app. Qed.

Lemma oneStreamAtATime_firstn acts : forall state n,
  oneStreamAtATime state acts = true ->
  oneStreamAtATime state (firstn n acts) = true.
Proof.
  induction acts as [|a acts IH]; intros state n H.
  - destruct n; reflexivity.
  - destruct n; [reflexivity|]. simpl in *.
    apply andb_true_iff in H. destruct H as [H1 H2].
    rewrite H1. simpl. apply IH. exact H2.
Qed.

Lemma oneStreamAtATime_run acts : forall state,
  oneStreamAtATime state acts = true ->
  atMostOneStreaming state ->
  atMostOneStreaming (run state acts).
Proof.
  induction acts as [|a acts IH]; intros state H Hone; [exact Hone|].
  simpl in H. apply andb_true_iff in H. destruct H as [H1 H2].
  change (run state (a :: acts)) with (run (step state a) acts).
  apply IH; [exact H2|].
  unfold atMostOneStreaming in *. apply step_streamingCount_fresh; assumption.
Qed.

(** *** At most one streaming message *)

(** C1.  For every sequence of store operations from the initial state in
    which each [addMessage] carrying [isStreaming: true] is issued while no
    message is flagged as streaming, at every instant (after every prefix of
    the sequence) at most one message of [messages] has [isStreaming = true]. *)
Theorem at_most_one_streaming_without_overlap
    (acts : list Action) (n : nat)
    (Hdiscipline : oneStreamAtATime initialState acts = true) :
  atMostOneStreaming (run initialState (firstn n acts)).
Proof.
  apply oneStreamAtATime_run.
  - apply oneStreamAtATime_firstn. exact Hdiscipline.
  - unfold atMostOneStreaming, streamingCount. simpl. lia.
Qed.

Lemma at_most_one_streaming_without_overlap_witness :
  oneStreamAtATime initialState helloScenario = true /\
  atMostOneStreaming (run initialState (firstn 3 helloScenario)).
Proof.
  split; [reflexivity|].
  apply (at_most_one_streaming_without_overlap helloScenario 3). reflexivity.
Defined.

(** C1 as the specification words it does not hold: [addMessage] moves the
    pointer to the new message and leaves the flag of the message that was
    streaming before as it is, so two [addMessage] calls with
    [isStreaming: true] leave two distinct flagged messages. *)
Lemma two_streams_both_flagged :
  (exists m1 m2,
      messages (run initialState twoStreams) = [m1; m2] /\
      id m1 <> id m2 /\
      isStreaming m1 = Some true /\ isStreaming m2 = Some true /\
      streamingMessageId (run initialState twoStreams) = Some (id m2)) /\
  ~ atMostOneStreaming (run initialState twoStreams).
Proof.
  split.
  - eexists; eexists. split; [reflexivity|].
    split; [vm_compute; discriminate|]. repeat split.
  - unfold atMostOneStreaming. vm_compute. lia.
Qed.

(** *** The streaming pointer *)

Lemma truthy_true b : truthy b = true -> b = Some true.
Proof. destruct b as [[|]|]; simpl; congruence. Qed.

Lemma clearIfPointsAt_hit i : clearIfPointsAt i (Some i) = None.
Proof. simpl. rewrite String.eqb_refl. reflexivity. Qed.

Lemma clearIfPointsAt_miss i p : p <> Some i -> clearIfPointsAt i p = p.
Proof.
  destruct p as [q|]; simpl; [|reflexivity].
  destruct (String.eqb_spec q i); [subst; congruence | reflexivity].
Qed.

(** A rewrite of the messages named [i] that keeps [id] and [isStreaming]
    keeps the pointer valid. *)
Lemma pointerValid_rewrite i f l p :
  (forall m, id (f m) = id m /\ isStreaming (f m) = isStreaming m) ->
  (exists m, In m l /\ id m = p /\ isStreaming m = Some true) ->
  exists m, In m (mapMatching i f l) /\ id m = p /\ isStreaming m = Some true.
Proof.
  intros Hf [m [Hin [Hid Hs]]].
  exists (if String.eqb (id m) i then f m else m).
  split; [apply mapMatching_image; exact Hin|].
  destruct (String.eqb (id m) i); [|split; assumption].
  destruct (Hf m) as [E1 E2]. rewrite E1, E2. split; assumption.
Qed.

(** A rewrite of the messages named [i], together with clearing the pointer
    when it names [i], keeps the pointer valid whatever the rewrite does. *)
Lemma pointerValid_clear i f l p :
  match p with
  | None => True
  | Some q => exists m, In m l /\ id m = q /\ isStreaming m = Some true
  end ->
  match clearIfPointsAt i p with
  | None => True
  | Some q =>
      exists m, In m (mapMatching i f l) /\ id m = q /\ isStreaming m = Some true
  end.
Proof.
  destruct p as [q|]; simpl; [|trivial].
  destruct (String.eqb_spec q i) as [E|NE]; [trivial|].
  intros [m [Hin [Hid Hs]]]. exists m.
  split; [|split; assumption].
  apply mapMatching_keeps_others; [exact Hin | congruence].
Qed.

Lemma step_pointerValid state a :
  carriesNoId a = true -> pointerValid state -> pointerValid (step state a).
Proof.
  unfold pointerValid. destruct a; simpl; intros Hno;
    try (intros H; exact H); try (intros _; exact I).
  - (* addMessage *)
    destruct (d_id messageData) as [carried|] eqn:Hid; [discriminate Hno|].
    destruct (truthy (d_isStreaming messageData)) eqn:Hs.
    + intros _. exists (withId (freshId now rnd) messageData).
      split; [apply in_or_app; right; left; reflexivity|].
      split; [unfold withId; simpl; rewrite Hid; reflexivity
             | apply truthy_true; exact Hs].
    + destruct (streamingMessageId state) as [p|]; [|trivial].
      intros [m [Hin Hrest]]. exists m.
      split; [apply in_or_app; left; exact Hin | exact Hrest].
  - (* appendMessageChunk *)
    destruct (streamingMessageId state) as [p|]; [|trivial].
    apply pointerValid_rewrite. intros m. split; reflexivity.
  - (* finalizeStreamingMessage *)
    apply pointerValid_clear.
  - (* markAsManuallyStopped *)
    apply pointerValid_clear.
  - (* setMessageError *)
    destruct (streamingMessageId state) as [p|]; [|trivial].
    apply pointerValid_rewrite. intros m. split; reflexivity.
Qed.

Lemma run_pointerValid acts : forall state,
  forallb carriesNoId acts = true ->
  pointerValid state -> pointerValid (run state acts).
Proof.
  induction acts as [|a acts IH]; intros state Hno H; [exact H|].
  simpl in Hno. apply andb_true_iff in Hno. destruct Hno as [Ha Hrest].
  change (run state (a :: acts)) with (run (step state a) acts).
  apply IH; [exact Hrest|]. apply step_pointerValid; assumption.
Qed.

Lemma mapMatching_flag_off i f l :
  (forall m, isStreaming (f m) = Some false) ->
  forall m', In m' (mapMatching i f l) -> id m' = i -> isStreaming m' = Some false.
Proof.
  intros Hf m' Hin Hid. apply mapMatching_origin in Hin.
  destruct Hin as [m [_ E]]. subst m'.
  destruct (String.eqb_spec (id m) i) as [_|NE]; [apply Hf | contradiction].
Qed.

(** C2.  The invariant of the specification, that a set pointer names a
    stored message flagged as streaming, is what [addMessage] aims at and
    misses when its data carries an [id] of its own together with
    [isStreaming: true]: the message is stored, and returned, under the
    carried id, while the pointer is set to the generated one.  From the
    initial state, after that one call, [streamingMessageId] names no
    message of [messages]. *)
Theorem carried_id_leaves_the_pointer_dangling :
  let call := addMessage 1000 "k3x9q0a" (copyOfStored "msg-old" "") initialState in
  id (fst call) = "msg-old" /\
  map id (messages (snd call)) = ["msg-old"] /\
  streamingMessageId (snd call) = Some "msg-1000-k3x9q0a" /\
  snd call = run initialState [AddMessage 1000 "k3x9q0a" (copyOfStored "msg-old" "")] /\
  ~ pointerValid (snd call).
Proof.
  cbv zeta. repeat split.
  unfold pointerValid. vm_compute.
  intros [m [[<-|[]] [Hid _]]]. discriminate Hid.
Qed.

(** *** What each action does to the messages, position by position *)

Lemma mapMatching_pointwise i f l k m :
  nth_error l k = Some m ->
  exists m', nth_error (mapMatching i f l) k = Some m' /\
             (id m = i -> m' = f m) /\ (id m <> i -> m' = m).
Proof.
  intros Hk. rewrite mapMatching_nth, Hk. simpl.
  eexists. split; [reflexivity|].
  destruct (String.eqb_spec (id m) i); split; intros; congruence.
Qed.

Lemma mapMatching_all_named i f l m' :
  In m' (mapMatching i f l) -> (forall m, id (f m) = id m) -> id m' = i ->
  exists m, In m l /\ id m = i /\ m' = f m.
Proof.
  intros Hin Hid Hi. apply mapMatching_origin in Hin.
  destruct Hin as [m [Hin E]]. exists m.
  destruct (String.eqb_spec (id m) i) as [Em|NE].
  - repeat split; assumption.
  - subst m'. contradiction.
Qed.

Lemma pointer_cleared_iff i p :
  (p <> None /\ clearIfPointsAt i p = None) <-> p = Some i.
Proof.
  split.
  - intros [Hp Hc]. destruct p as [q|]; [|congruence].
    simpl in Hc. destruct (String.eqb_spec q i); congruence.
  - intros ->. split; [discriminate | apply clearIfPointsAt_hit].
Qed.

(** C3.  [finalizeStreamingMessage(id)] keeps the length and the order of
    [messages]; a message whose id matches comes out with
    [isStreaming = false] and every other field as before, any other message
    comes out as it was, and without a match the list is the same list.  The
    pointer goes from set to [null] exactly when it was equal to [id], and in
    every other case keeps its value.  No other store field changes. *)
Theorem finalizeStreamingMessage_spec (state : ChatState) (i : string) :
  let state' := finalizeStreamingMessage i state in
  List.length (messages state') = List.length (messages state) /\
  (forall k m, nth_error (messages state) k = Some m ->
     exists m', nth_error (messages state') k = Some m' /\
       (id m = i -> isStreaming m' = Some false /\ sameButStreaming m m') /\
       (id m <> i -> m' = m)) /\
  ((forall m, In m (messages state) -> id m <> i) ->
     messages state' = messages state) /\
  ((streamingMessageId state <> None /\ streamingMessageId state' = None)
     <-> streamingMessageId state = Some i) /\
  (streamingMessageId state = Some i -> streamingMessageId state' = None) /\
  (streamingMessageId state <> Some i ->
     streamingMessageId state' = streamingMessageId state) /\
  sameSessionFields state state'.
Proof.
  cbv zeta. simpl. repeat apply conj.
  - apply mapMatching_length.
  - intros k m Hk.
    destruct (mapMatching_pointwise i withStreamingOff _ k m Hk)
      as [m' [Hk' [Hhit Hmiss]]].
    exists m'. split; [exact Hk'|]. split; [|exact Hmiss].
    intros E. rewrite (Hhit E). split; [reflexivity|].
    unfold sameButStreaming. simpl. repeat split.
  - apply mapMatching_absent.
  - apply pointer_cleared_iff.
  - apply pointer_cleared_iff.
  - intros ->. apply clearIfPointsAt_hit.
  - apply clearIfPointsAt_miss.
  - reflexivity.
  - reflexivity.
  - reflexivity.
Qed.

Lemma finalizeStreamingMessage_spec_witness :
  nth_error (messages midStream) 1 <> None /\
  streamingMessageId midStream = Some idA /\
  streamingMessageId (finalizeStreamingMessage idA midStream) = None /\
  streamingMessageId (finalizeStreamingMessage "msg-0-nobody" midStream)
    = Some idA.
Proof.
  destruct (finalizeStreamingMessage_spec midStream idA)
    as [_ [_ [_ [_ [Hhit _]]]]].
  destruct (finalizeStreamingMessage_spec midStream "msg-0-nobody")
    as [_ [_ [_ [_ [_ [Hmiss _]]]]]].
  split; [vm_compute; discriminate|].
  split; [reflexivity|].
  split; [apply Hhit; reflexivity|].
  rewrite Hmiss; [reflexivity | vm_compute; discriminate].
Defined.

(** C7.  [selectIsProcessing] is true exactly when [isWaitingForResponse] is
    true or [streamingMessageId] is not [null]. *)
Theorem selectIsProcessing_iff (state : ChatState) :
  selectIsProcessing state = true <->
  (isWaitingForResponse state = true \/ streamingMessageId state <> None).
Proof.
  unfold selectIsProcessing.
  destruct (isWaitingForResponse state), (streamingMessageId state) as [p|];
    simpl; split; intros H; try reflexivity;
    try (left; reflexivity); try (right; discriminate).
  destruct H as [H|H]; [discriminate H | contradiction H; reflexivity].
Qed.

(** C4.  [markAsManuallyStopped(id)] keeps the length and the order of
    [messages]; a message whose id matches comes out with
    [wasManuallyStopped = true] and [isStreaming = false] together, every
    other field as before; any other message comes out as it was, and
    without a match the list is the same list.  The pointer is cleared when
    it was equal to [id] and kept otherwise.  When [id] was the pointer and
    [isWaitingForResponse] is false, [selectIsProcessing] is true before the
    call and false after it. *)
Theorem markAsManuallyStopped_spec (state : ChatState) (i : string) :
  let state' := markAsManuallyStopped i state in
  List.length (messages state') = List.length (messages state) /\
  (forall k m, nth_error (messages state) k = Some m ->
     exists m', nth_error (messages state') k = Some m' /\
       (id m = i ->
          wasManuallyStopped m' = Some true /\ isStreaming m' = Some false /\
          sameButStopFlags m m') /\
       (id m <> i -> m' = m)) /\
  (forall m', In m' (messages state') -> id m' = i ->
     wasManuallyStopped m' = Some true /\ isStreaming m' = Some false) /\
  ((forall m, In m (messages state) -> id m <> i) ->
     messages state' = messages state) /\
  (streamingMessageId state = Some i -> streamingMessageId state' = None) /\
  (streamingMessageId state <> Some i ->
     streamingMessageId state' = streamingMessageId state) /\
  sameSessionFields state state' /\
  (streamingMessageId state = Some i -> isWaitingForResponse state = false ->
     selectIsProcessing state = true /\ selectIsProcessing state' = false).
Proof.
  cbv zeta. simpl. repeat apply conj.
  - apply mapMatching_length.
  - intros k m Hk.
    destruct (mapMatching_pointwise i withManualStop _ k m Hk)
      as [m' [Hk' [Hhit Hmiss]]].
    exists m'. split; [exact Hk'|]. split; [|exact Hmiss].
    intros E. rewrite (Hhit E). split; [reflexivity|]. split; [reflexivity|].
    unfold sameButStopFlags. simpl. repeat split.
  - intros m' Hin Hi.
    destruct (mapMatching_all_named i withManualStop _ m' Hin) as [m [_ [_ E]]];
      [reflexivity | exact Hi |]. subst m'. split; reflexivity.
  - apply mapMatching_absent.
  - intros ->. apply clearIfPointsAt_hit.
  - apply clearIfPointsAt_miss.
  - reflexivity.
  - reflexivity.
  - reflexivity.
  - intros Hp Hw. unfold selectIsProcessing. simpl.
    rewrite Hp, Hw, clearIfPointsAt_hit. split; reflexivity.
Qed.

Lemma markAsManuallyStopped_spec_witness :
  streamingMessageId midStream = Some idA /\
  isWaitingForResponse midStream = false /\
  selectIsProcessing midStream = true /\
  selectIsProcessing (markAsManuallyStopped idA midStream) = false.
Proof.
  destruct (markAsManuallyStopped_spec midStream idA)
    as [_ [_ [_ [_ [_ [_ [_ Hproc]]]]]]].
  split; [reflexivity|]. split; [reflexivity|].
  apply Hproc; reflexivity.
Defined.

Lemma selectIsProcessing_iff_witness :
  selectIsProcessing midStream = true /\
  selectIsProcessing (finalizeStreamingMessage idA midStream) = false.
Proof.
  split.
  - apply (proj2 (selectIsProcessing_iff midStream)). right. discriminate.
  - reflexivity.
Defined.

(** *** Appending chunks *)

Lemma string_append_assoc (a b c : string) :
  ((a ++ b) ++ c = a ++ (b ++ c))%string.
Proof. induction a as [|x a IH]; simpl; [reflexivity | rewrite IH; reflexivity]. Qed.

Lemma state_eta (state : ChatState) :
  {| messages := messages state;
     streamingMessageId := streamingMessageId state;
     isWaitingForResponse := isWaitingForResponse state;
     currentConversationId := currentConversationId state;
     currentTaskId := currentTaskId state |} = state.
Proof. destruct state; reflexivity. Qed.

Lemma appendMessageChunk_absent i chunk state :
  (forall m, In m (messages state) -> id m <> i) ->
  appendMessageChunk i chunk state = state.
Proof.
  intros Hno. unfold appendMessageChunk.
  rewrite (mapMatching_absent i _ _ Hno). apply state_eta.
Qed.

Lemma appendMessageChunk_twice i a b state :
  appendMessageChunk i b (appendMessageChunk i a state) =
  appendMessageChunk i (a ++ b)%string state.
Proof.
  unfold appendMessageChunk. simpl. f_equal.
  unfold mapMatching. rewrite map_map. apply map_ext. intros m.
  destruct (String.eqb (id m) i) eqn:E.
  - simpl. rewrite E. unfold withChunk. simpl.
    rewrite string_append_assoc. reflexivity.
  - rewrite E. reflexivity.
Qed.

(** C5.  [appendMessageChunk(id, chunk)] keeps the length and the order of
    [messages]; a message whose id matches comes out with [chunk] joined to
    the right of its text and every other field as before, any other message
    comes out as it was, and no other store field changes.  Without a match
    the whole state is unchanged.  The action does not look at [isStreaming]:
    a finalized message still takes the chunk.  Two appends in a row amount
    to one append of the joined chunks, so ["a"] then ["b"] leaves the old
    text followed by ["ab"]. *)
Theorem appendMessageChunk_spec (state : ChatState) (i chunk : string) :
  let state' := appendMessageChunk i chunk state in
  List.length (messages state') = List.length (messages state) /\
  (forall k m, nth_error (messages state) k = Some m ->
     exists m', nth_error (messages state') k = Some m' /\
       (id m = i -> text m' = (text m ++ chunk)%string /\ sameButText m m') /\
       (id m <> i -> m' = m)) /\
  ((forall m, In m (messages state) -> id m <> i) -> state' = state) /\
  streamingMessageId state' = streamingMessageId state /\
  sameSessionFields state state' /\
  (forall k m,
     nth_error (messages (finalizeStreamingMessage i state)) k = Some m ->
     id m = i ->
     exists m',
       nth_error (messages (appendMessageChunk i chunk
                              (finalizeStreamingMessage i state))) k = Some m' /\
       text m' = (text m ++ chunk)%string /\ isStreaming m' = Some false) /\
  (forall a b,
     appendMessageChunk i b (appendMessageChunk i a state) =
     appendMessageChunk i (a ++ b)%string state) /\
  (forall k m, nth_error (messages state) k = Some m -> id m = i ->
     exists m',
       nth_error (messages (appendMessageChunk i "b"
                              (appendMessageChunk i "a" state))) k = Some m' /\
       text m' = (text m ++ "ab")%string).
Proof.
  cbv zeta. repeat apply conj.
  - apply mapMatching_length.
  - intros k m Hk.
    destruct (mapMatching_pointwise i (withChunk chunk) _ k m Hk)
      as [m' [Hk' [Hhit Hmiss]]].
    exists m'. split; [exact Hk'|]. split; [|exact Hmiss].
    intros E. rewrite (Hhit E). split; [reflexivity|].
    unfold sameButText. simpl. repeat split.
  - apply appendMessageChunk_absent.
  - reflexivity.
  - reflexivity.
  - reflexivity.
  - reflexivity.
  - intros k m Hk Hi.
    destruct (mapMatching_pointwise i (withChunk chunk) _ k m Hk)
      as [m' [Hk' [Hhit _]]].
    exists m'. split; [exact Hk'|]. rewrite (Hhit Hi). simpl.
    split; [reflexivity|].
    apply (mapMatching_flag_off i withStreamingOff (messages state));
      [reflexivity | | exact Hi].
    apply nth_error_In with (n := k). exact Hk.
  - intros a b. apply appendMessageChunk_twice.
  - intros k m Hk Hi. rewrite appendMessageChunk_twice.
    destruct (mapMatching_pointwise i (withChunk ("a" ++ "b")%string) _ k m Hk)
      as [m' [Hk' [Hhit _]]].
    exists m'. split; [exact Hk'|]. rewrite (Hhit Hi). reflexivity.
Qed.

Lemma appendMessageChunk_spec_witness :
  (exists m', nth_error (messages (appendMessageChunk idA "b"
                                     (appendMessageChunk idA "a" midStream))) 1
              = Some m' /\ text m' = "Heab") /\
  appendMessageChunk "msg-0-nobody" "llo" midStream = midStream.
Proof.
  destruct (appendMessageChunk_spec midStream idA "")
    as [_ [_ [_ [_ [_ [_ [_ Hab]]]]]]].
  destruct (appendMessageChunk_spec midStream "msg-0-nobody" "llo")
    as [_ [_ [Hno _]]].
  split.
  - destruct (Hab 1 (withId idA (assistantStreams "He")) eq_refl eq_refl)
      as [m' [Hk Ht]].
    exists m'. split; [exact Hk | exact Ht].
  - apply Hno. intros m [E|[E|[]]]; subst m; vm_compute; discriminate.
Defined.

(** C6.  [clearMessages()] leaves [messages] empty and [streamingMessageId]
    [null]; [isWaitingForResponse], [currentConversationId] and
    [currentTaskId] keep the values they had. *)
Theorem clearMessages_spec (state : ChatState) :
  messages (clearMessages state) = [] /\
  streamingMessageId (clearMessages state) = None /\
  isWaitingForResponse (clearMessages state) = isWaitingForResponse state /\
  currentConversationId (clearMessages state) = currentConversationId state /\
  currentTaskId (clearMessages state) = currentTaskId state.
Proof. unfold clearMessages. simpl. repeat split. Qed.

(** The scenario of section 8 of the specification, run on the store. *)
Example hello_scenario :
  let final := run initialState helloScenario in
  map (fun m => (isUser m, text m, isStreaming m)) (messages final)
    = [(true, "hi", None); (false, "Hello", Some false)] /\
  streamingMessageId final = None /\
  selectIsProcessing final = isWaitingForResponse final.
Proof. vm_compute. repeat split. Qed.

End ChatStoreSpec.

(* ===================================================================== *)
(** ** Properties of the API key access layer                              *)
(* ===================================================================== *)

Module ApiKeysSpec.
Import ApiKeys.

Ltac run_async :=
  unfold returns, bind, ret, await, consoleError, call, tryCatch; simpl.

Section AnyCollaborators.

Context {supabase : Supabase} {encryption : Encryption}.
Variable env : ProcessEnv.
Variable w : World.

(** *** The operations that never throw *)

Lemma getApiKeyByServiceInstance_returns serviceInstanceId :
  returns (getApiKeyByServiceInstance serviceInstanceId) w.
Proof.
  unfold getApiKeyByServiceInstance. run_async.
  destruct (selectDefaultKey serviceInstanceId) as [[row|] [err|]]; simpl;
    eexists; eexists; reflexivity.
Qed.

Lemma deleteApiKey_returns rowId : returns (deleteApiKey rowId) w.
Proof.
  unfold deleteApiKey. run_async.
  destruct (deleteKey rowId) as [d [err|]]; simpl; eexists; eexists; reflexivity.
Qed.

Lemma incrementApiKeyUsage_returns rowId :
  returns (incrementApiKeyUsage rowId) w.
Proof.
  unfold incrementApiKeyUsage. run_async.
  destruct (rpcIncrementUsage rowId) as [d [err|]]; simpl;
    eexists; eexists; reflexivity.
Qed.

(** [getDecryptedApiKey] wraps the decryption in [try]/[catch]: a fault of
    [decryptApiKey] comes back as [null]. *)
Lemma getDecryptedApiKey_returns apiKeyId :
  returns (getDecryptedApiKey env apiKeyId) w.
Proof.
  unfold getDecryptedApiKey. run_async.
  destruct (selectKeyValue apiKeyId) as [[stored|] [err|]]; simpl;
    try (eexists; eexists; reflexivity).
  destruct (API_ENCRYPTION_KEY env) as [k|]; simpl;
    [|eexists; eexists; reflexivity].
  destruct (String.eqb k ""); simpl; [eexists; eexists; reflexivity|].
  destruct (decryptApiKey stored k); simpl; eexists; eexists; reflexivity.
Qed.

Lemma getDecryptedApiKey_decrypt_fault apiKeyId stored k e :
  selectKeyValue apiKeyId = mkResponse (Some stored) None ->
  API_ENCRYPTION_KEY env = Some k -> k <> "" ->
  decryptApiKey stored k = Thrown e ->
  fst (getDecryptedApiKey env apiKeyId w) = Returned None.
Proof.
  intros Hsel Hk Hne Hdec. unfold getDecryptedApiKey. run_async.
  rewrite Hsel, Hk. simpl.
  destruct (String.eqb_spec k ""); [contradiction|]. simpl.
  rewrite Hdec. reflexivity.
Qed.

(** *** The two write operations *)

Lemma insertAndRead_returns apiKey keyValue w0 :
  returns (insertAndRead apiKey keyValue) w0.
Proof.
  unfold insertAndRead. run_async.
  destruct (insertKey (withKeyValue apiKey keyValue)) as [[row|] [err|]]; simpl;
    eexists; eexists; reflexivity.
Qed.

Lemma updateAndRead_returns rowId updates w0 :
  returns (updateAndRead rowId updates) w0.
Proof.
  unfold updateAndRead. run_async.
  destruct (updateKey rowId updates) as [[row|] [err|]]; simpl;
    eexists; eexists; reflexivity.
Qed.

Lemma insertAndRead_requests apiKey keyValue w0 :
  requests (snd (insertAndRead apiKey keyValue w0)) =
  requests w0 ++ [InsertKey (withKeyValue apiKey keyValue)].
Proof.
  unfold insertAndRead. run_async.
  destruct (insertKey (withKeyValue apiKey keyValue)) as [[row|] [err|]];
    reflexivity.
Qed.

Lemma updateAndRead_requests rowId updates w0 :
  requests (snd (updateAndRead rowId updates w0)) =
  requests w0 ++ [UpdateKey rowId updates].
Proof.
  unfold updateAndRead. run_async.
  destruct (updateKey rowId updates) as [[row|] [err|]]; reflexivity.
Qed.

(** As long as [encryptApiKey] does not throw, neither write does. *)
Lemma createApiKey_returns apiKey isEncrypted :
  (forall value k, exists c, encryptApiKey value k = Returned c) ->
  returns (createApiKey env apiKey isEncrypted) w.
Proof.
  intros Henc. unfold createApiKey.
  destruct isEncrypted; simpl; [apply insertAndRead_returns|].
  destruct (API_ENCRYPTION_KEY env) as [k|]; simpl;
    [|run_async; eexists; eexists; reflexivity].
  destruct (String.eqb k ""); [run_async; eexists; eexists; reflexivity|].
  destruct (Henc (new_key_value apiKey) k) as [c Hc].
  unfold bind at 1, call. rewrite Hc. apply insertAndRead_returns.
Qed.

Lemma updateApiKey_returns rowId updates isEncrypted :
  (forall value k, exists c, encryptApiKey value k = Returned c) ->
  returns (updateApiKey env rowId updates isEncrypted) w.
Proof.
  intros Henc. unfold updateApiKey.
  destruct (negb (falsy (upd_key_value updates)) && negb isEncrypted);
    [|apply updateAndRead_returns].
  destruct (API_ENCRYPTION_KEY env) as [k|]; simpl;
    [|run_async; eexists; eexists; reflexivity].
  destruct (upd_key_value updates) as [plain|];
    [|run_async; eexists; eexists; reflexivity].
  destruct (String.eqb k ""); [run_async; eexists; eexists; reflexivity|].
  destruct (Henc plain k) as [c Hc].
  unfold bind at 1, call. rewrite Hc. apply updateAndRead_returns.
Qed.

(** A fault of [encryptApiKey] is not caught on either write path: it
    reaches the caller, and no query has been sent by then. *)
Lemma createApiKey_encrypt_fault apiKey k e :
  API_ENCRYPTION_KEY env = Some k -> k <> "" ->
  encryptApiKey (new_key_value apiKey) k = Thrown e ->
  createApiKey env apiKey false w = (Thrown e, w).
Proof.
  intros Hk Hne Henc. unfold createApiKey. simpl. rewrite Hk. simpl.
  destruct (String.eqb_spec k ""); [contradiction|].
  unfold bind, call. rewrite Henc. reflexivity.
Qed.

Lemma updateApiKey_encrypt_fault rowId updates plain k e :
  upd_key_value updates = Some plain -> plain <> "" ->
  API_ENCRYPTION_KEY env = Some k -> k <> "" ->
  encryptApiKey plain k = Thrown e ->
  updateApiKey env rowId updates false w = (Thrown e, w).
Proof.
  intros Hp Hpne Hk Hne Henc. unfold updateApiKey. rewrite Hp, Hk. simpl.
  destruct (String.eqb_spec plain ""); [contradiction|].
  destruct (String.eqb_spec k ""); [contradiction|]. simpl.
  unfold bind, call. rewrite Henc. reflexivity.
Qed.

(** *** The failures that do come back as the sentinel *)

Lemma lookup_miss_or_backend_fault_is_null serviceInstanceId apiKeyId :
  (error (selectDefaultKey serviceInstanceId) <> None \/
   data (selectDefaultKey serviceInstanceId) = None ->
   fst (getApiKeyByServiceInstance serviceInstanceId w) = Returned None) /\
  (error (selectKeyValue apiKeyId) <> None \/
   data (selectKeyValue apiKeyId) = None ->
   fst (getDecryptedApiKey env apiKeyId w) = Returned None).
Proof.
  split; intros H.
  - unfold getApiKeyByServiceInstance. run_async.
    destruct (selectDefaultKey serviceInstanceId) as [[row|] [err|]];
      simpl in *; try reflexivity.
    destruct H as [H|H]; [contradiction H; reflexivity | discriminate H].
  - unfold getDecryptedApiKey. run_async.
    destruct (selectKeyValue apiKeyId) as [[stored|] [err|]];
      simpl in *; try reflexivity.
    destruct H as [H|H]; [contradiction H; reflexivity | discriminate H].
Qed.

Lemma backend_fault_is_false rowId err :
  (error (deleteKey rowId) = Some err ->
   fst (deleteApiKey rowId w) = Returned false) /\
  (error (rpcIncrementUsage rowId) = Some err ->
   fst (incrementApiKeyUsage rowId w) = Returned false).
Proof.
  split; intros H.
  - unfold deleteApiKey. run_async. rewrite H. reflexivity.
  - unfold incrementApiKeyUsage. run_async. rewrite H. reflexivity.
Qed.

Lemma missing_master_key_is_null apiKey rowId updates plain apiKeyId stored :
  falsy (API_ENCRYPTION_KEY env) = true ->
  createApiKey env apiKey false w
    = (Returned None,
       {| requests := requests w;
          console := console w ++ [NoMasterKeyToEncrypt] |}) /\
  (upd_key_value updates = Some plain -> plain <> "" ->
   updateApiKey env rowId updates false w
     = (Returned None,
        {| requests := requests w;
           console := console w ++ [NoMasterKeyToEncrypt] |})) /\
  (selectKeyValue apiKeyId = mkResponse (Some stored) None ->
   fst (getDecryptedApiKey env apiKeyId w) = Returned None).
Proof.
  intros Hfalsy. repeat apply conj.
  - unfold createApiKey. simpl.
    destruct (API_ENCRYPTION_KEY env) as [k|]; simpl in *;
      [rewrite Hfalsy|]; reflexivity.
  - intros Hp Hne. unfold updateApiKey. rewrite Hp. simpl.
    destruct (String.eqb_spec plain ""); [contradiction|]. simpl.
    destruct (API_ENCRYPTION_KEY env) as [k|]; simpl in *;
      [rewrite Hfalsy|]; reflexivity.
  - intros Hsel. unfold getDecryptedApiKey. run_async. rewrite Hsel. simpl.
    destruct (API_ENCRYPTION_KEY env) as [k|]; simpl in *;
      [rewrite Hfalsy|]; reflexivity.
Qed.

End AnyCollaborators.

(** *** Faults of the encryption collaborator *)

(** C8.  With the master key set and a plaintext value, a fault thrown by
    [encryptApiKey] leaves [createApiKey] and [updateApiKey] as a thrown
    fault, not as [null], and before any query is sent; the same fault
    thrown by [decryptApiKey] inside [getDecryptedApiKey] is caught and
    comes back as [null]. *)
Theorem encrypt_fault_escapes_the_writes :
  @createApiKey acceptingBackend faultyEncryption withMasterKey
     plainKey false emptyWorld
    = (Thrown "Invalid key length", emptyWorld) /\
  @updateApiKey acceptingBackend faultyEncryption withMasterKey
     "key-1" rotateKey false emptyWorld
    = (Thrown "Invalid key length", emptyWorld) /\
  fst (@getDecryptedApiKey acceptingBackend faultyEncryption withMasterKey
         "key-1" emptyWorld)
    = Returned None.
Proof. repeat split. Qed.

(** *** Encryption on the write path *)




(** *** Values that arrive encrypted *)

Lemma withKeyValue_same apiKey : withKeyValue apiKey (new_key_value apiKey) = apiKey.
Proof. destruct apiKey; reflexivity. Qed.

(** C10.  With [isEncrypted = true], [createApiKey] and [updateApiKey] give
    the same result and leave the same trace whatever [API_ENCRYPTION_KEY]
    holds, set or not; the one query they send carries the supplied row, or
    the supplied updates, unchanged; and with the variable unset they return
    the row the backend answers with. *)
Theorem pre_encrypted_writes_ignore_the_master_key
    {supabase : Supabase} {encryption : Encryption}
    (env1 env2 : ProcessEnv) (apiKey : NewApiKey)
    (rowId : string) (updates : ApiKeyUpdates) (w : World) :
  createApiKey env1 apiKey true w = createApiKey env2 apiKey true w /\
  updateApiKey env1 rowId updates true w = updateApiKey env2 rowId updates true w /\
  requests (snd (createApiKey env1 apiKey true w))
    = requests w ++ [InsertKey apiKey] /\
  requests (snd (updateApiKey env1 rowId updates true w))
    = requests w ++ [UpdateKey rowId updates] /\
  (forall row, insertKey apiKey = mkResponse (Some row) None ->
     fst (createApiKey noMasterKey apiKey true w) = Returned (Some row)) /\
  (forall row, updateKey rowId updates = mkResponse (Some row) None ->
     fst (updateApiKey noMasterKey rowId updates true w) = Returned (Some row)).
Proof.
  unfold createApiKey, updateApiKey. simpl. rewrite andb_false_r.
  repeat apply conj; try reflexivity.
  - rewrite insertAndRead_requests, withKeyValue_same. reflexivity.
  - apply updateAndRead_requests.
  - intros row Hrow. unfold insertAndRead. run_async.
    rewrite withKeyValue_same, Hrow. reflexivity.
  - intros row Hrow. unfold updateAndRead. run_async.
    rewrite Hrow. reflexivity.
Qed.

Lemma pre_encrypted_writes_ignore_the_master_key_witness :
  fst (@createApiKey acceptingBackend faultyEncryption noMasterKey
         plainKey true emptyWorld)
    = Returned (Some (storedRow "key-1" "dify-1" "app-plain-key" true)) /\
  @updateApiKey acceptingBackend faultyEncryption noMasterKey
     "key-1" rotateKey true emptyWorld
  = @updateApiKey acceptingBackend faultyEncryption withMasterKey
     "key-1" rotateKey true emptyWorld.
Proof.
  destruct (@pre_encrypted_writes_ignore_the_master_key
              acceptingBackend faultyEncryption noMasterKey withMasterKey
              plainKey "key-1" rotateKey emptyWorld)
    as [_ [Hsame [_ [_ [Hcreate _]]]]].
  split; [apply Hcreate; reflexivity | exact Hsame].
Defined.

End ApiKeysSpec.

(* ===================================================================== *)
(** ** Further laws of the chat store                                      *)
(* ===================================================================== *)

Module ChatStoreLaws.
Import ChatStore ChatStoreSpec.

(** *** Generated ids *)

Lemma digits_then_dash_inj d : forall d' r r',
  (NilEmpty.string_of_uint d ++ "-" ++ r)%string
    = (NilEmpty.string_of_uint d' ++ "-" ++ r')%string ->
  d = d' /\ r = r'.
Proof.
  induction d; intros d' r r' H; destruct d'; simpl in H;
    try discriminate H;
    try (injection H as H; destruct (IHd _ _ _ H) as [-> ->]; split; reflexivity).
  injection H as ->. split; reflexivity.
Qed.

Lemma nilZero_as_nilEmpty d :
  NilZero.string_of_uint d = NilEmpty.string_of_uint (zeroForNil d).
Proof. destruct d; reflexivity. Qed.

Lemma of_uint_zeroForNil d : N.of_uint (zeroForNil d) = N.of_uint d.
Proof. destruct d; reflexivity. Qed.

Lemma freshId_eq_inv now now' rnd rnd' :
  freshId now rnd = freshId now' rnd' -> now = now' /\ rnd = rnd'.
Proof.
  unfold freshId. simpl. intros Hsame.
  injection Hsame as Hsame. rewrite !nilZero_as_nilEmpty in Hsame.
  apply digits_then_dash_inj in Hsame. destruct Hsame as [Hd ->].
  split; [|reflexivity].
  rewrite <- (DecimalN.Unsigned.of_to now), <- (DecimalN.Unsigned.of_to now').
  rewrite <- (of_uint_zeroForNil (N.to_uint now)), Hd.
  apply of_uint_zeroForNil.
Qed.

(** X1.  Two calls of [addMessage] get the same id only when both the clock
    reading and the random suffix coincide. *)
Theorem freshId_inj (now now' : N) (rnd rnd' : string)
    (Hsame : freshId now rnd = freshId now' rnd') :
  now = now' /\ rnd = rnd'.
Proof.
  unfold freshId in Hsame. simpl in Hsame. injection Hsame as Hsame.
  rewrite !nilZero_as_nilEmpty in Hsame.
  destruct (digits_then_dash_inj _ _ _ _ Hsame) as [Hdigits Hrnd].
  split; [|exact Hrnd].
  apply (f_equal N.of_uint) in Hdigits.
  rewrite !of_uint_zeroForNil, !DecimalN.Unsigned.of_to in Hdigits.
  exact Hdigits.
Qed.

Lemma freshId_inj_witness :
  freshId 1000 "k3x9q0a" = freshId 1000 "k3x9q0a" /\
  (1000%N = 1000%N /\ "k3x9q0a" = "k3x9q0a").
Proof.
  split; [reflexivity|]. apply (freshId_inj 1000 1000 "k3x9q0a" "k3x9q0a").
  reflexivity.
Defined.

(** *** The sequence of ids *)

Lemma ids_mapMatching i f l :
  (forall m, id (f m) = id m) -> map id (mapMatching i f l) = map id l.
Proof.
  intros Hf. unfold mapMatching. rewrite map_map. apply map_ext.
  intros m. destruct (String.eqb (id m) i); [apply Hf | reflexivity].
Qed.

Lemma storedId_generated now rnd d state :
  d_id d = None -> id (fst (addMessage now rnd d state)) = freshId now rnd.
Proof. intros H. simpl. rewrite H. reflexivity. Qed.

Lemma ids_step state a :
  ids (step state a) =
  match a with
  | AddMessage now rnd d => ids state ++ [id (fst (addMessage now rnd d state))]
  | ClearMessages => []
  | _ => ids state
  end.
Proof.
  unfold ids. destruct a; simpl; try reflexivity;
    try (apply ids_mapMatching; intros m; reflexivity).
  rewrite map_app. reflexivity.
Qed.

Lemma NoDup_map_injective {A B} (f : A -> B) (l : list A) :
  (forall x y, f x = f y -> x = y) -> NoDup l -> NoDup (map f l).
Proof.
  intros Hinj Hnd. induction Hnd as [|x l Hx Hnd IH]; simpl; constructor.
  - intros Hin. apply in_map_iff in Hin. destruct Hin as [y [E Hy]].
    apply Hinj in E. subst y. contradiction.
  - exact IH.
Qed.

(** While the data carries no id, the ids in the store are the tail end of
    the ids generated so far. *)
Lemma ids_run_tail acts : forall state seen,
  forallb carriesNoId acts = true ->
  (exists gone, map (fun d => freshId (fst d) (snd d)) seen = gone ++ ids state) ->
  exists gone,
    map (fun d => freshId (fst d) (snd d)) (seen ++ draws acts)
      = gone ++ ids (run state acts).
Proof.
  induction acts as [|a acts IH]; intros state seen Hno [gone Hgone].
  - exists gone. simpl. rewrite app_nil_r. exact Hgone.
  - simpl in Hno. apply andb_true_iff in Hno. destruct Hno as [Ha Hrest].
    change (run state (a :: acts)) with (run (step state a) acts).
    change (draws (a :: acts))
      with (match a with AddMessage now rnd _ => [(now, rnd)] | _ => [] end
            ++ draws acts).
    rewrite app_assoc. apply IH; [exact Hrest|]. rewrite ids_step.
    destruct a; rewrite ?app_nil_r;
      try (exists gone; exact Hgone).
    + exists gone. rewrite storedId_generated.
      * rewrite map_app, Hgone, <- app_assoc. reflexivity.
      * simpl in Ha. destruct (d_id messageData); [discriminate Ha | reflexivity].
    + exists (gone ++ ids state). rewrite app_nil_r. exact Hgone.
Qed.

(** X2.  From the initial state, when the data handed to [addMessage]
    carries no id of its own and no two [addMessage] calls of a sequence
    draw the same clock reading together with the same random suffix, the
    ids of the stored messages are pairwise distinct. *)
Theorem distinct_draws_give_distinct_ids (acts : list Action)
    (Hgenerated : forallb carriesNoId acts = true)
    (Hdraws : NoDup (draws acts)) :
  NoDup (ids (run initialState acts)).
Proof.
  destruct (ids_run_tail acts initialState [] Hgenerated) as [gone Hgone].
  - exists []. reflexivity.
  - simpl in Hgone.
    assert (Hall : NoDup (gone ++ ids (run initialState acts))).
    { rewrite <- Hgone. apply NoDup_map_injective; [|exact Hdraws].
      intros [n1 r1] [n2 r2] E. simpl in E.
      apply freshId_eq_inv in E. destruct E as [-> ->]. reflexivity. }
    apply NoDup_app_remove_l in Hall. exact Hall.
Qed.

Lemma distinct_draws_give_distinct_ids_witness :
  NoDup (draws helloScenario) /\ NoDup (ids (run initialState helloScenario)).
Proof.
  assert (Hd : NoDup (draws helloScenario)).
  { simpl. constructor.
    - intros [E|[]]. discriminate E.
    - constructor; [intros [] | constructor]. }
  split; [exact Hd|].
  apply (distinct_draws_give_distinct_ids helloScenario eq_refl Hd).
Defined.

(** X3.  The ids of the stored messages change only by [addMessage], which
    puts the id of the message it returns at the end (the id the data
    carries when it carries one, the generated id otherwise), and by
    [clearMessages], which empties them; so the number of messages grows by
    one on [addMessage], drops to zero on [clearMessages] and is kept by
    every other action. *)
Theorem ids_change_only_by_add_and_clear (state : ChatState) (a : Action) :
  ids (step state a) =
    match a with
    | AddMessage now rnd d =>
        ids state ++ [match d_id d with
                      | Some carried => carried
                      | None => freshId now rnd
                      end]
    | ClearMessages => []
    | _ => ids state
    end /\
  List.length (messages (step state a)) =
    match a with
    | AddMessage _ _ _ => S (List.length (messages state))
    | ClearMessages => 0
    | _ => List.length (messages state)
    end.
Proof.
  split; [rewrite ids_step; destruct a; reflexivity|].
  pose proof (f_equal (@List.length string) (ids_step state a)) as H.
  unfold ids in H. rewrite !length_map in H. rewrite H.
  destruct a; try reflexivity; rewrite ?length_map; try reflexivity.
  rewrite length_app, length_map. simpl. lia.
Qed.

(** *** One id, one message *)

Lemma mapMatching_elsewhere i f l k m :
  NoDup (map id l) -> nth_error l k = Some m -> id m = i ->
  forall j, j <> k -> nth_error (mapMatching i f l) j = nth_error l j.
Proof.
  intros Hnd Hk Hi j Hjk. rewrite mapMatching_nth.
  destruct (nth_error l j) as [m'|] eqn:Hj; [|reflexivity]. simpl.
  destruct (String.eqb_spec (id m') i) as [E|_]; [|reflexivity].
  exfalso. apply Hjk.
  apply (proj1 (NoDup_nth_error (map id l)) Hnd).
  - apply nth_error_Some. rewrite nth_error_map, Hj. discriminate.
  - rewrite !nth_error_map, Hj, Hk. simpl. congruence.
Qed.

(** X4.  While the stored ids are pairwise distinct, an action aimed at the
    id of the message at position [k] leaves the message at every other
    position as it was. *)
Theorem action_rewrites_one_message
    (state : ChatState) (a : Action) (i : string) (k : nat) (m : ChatMessage)
    (Hdistinct : NoDup (ids state))
    (Haim : target a = Some i)
    (Hat : nth_error (messages state) k = Some m)
    (Hid : id m = i) :
  forall j, j <> k ->
    nth_error (messages (step state a)) j = nth_error (messages state) j.
Proof.
  destruct a; simpl in Haim; try discriminate Haim;
    injection Haim as ->; simpl;
    apply (mapMatching_elsewhere i _ (messages state) k m); assumption.
Qed.

Lemma action_rewrites_one_message_witness :
  nth_error (messages (step midStream (MarkAsManuallyStopped idA))) 0
    = nth_error (messages midStream) 0.
Proof.
  apply (action_rewrites_one_message midStream (MarkAsManuallyStopped idA)
           idA 1 (withId idA (assistantStreams "He"))).
  - vm_compute. constructor.
    + intros [E|[]]. discriminate E.
    + constructor; [intros [] | constructor].
  - reflexivity.
  - reflexivity.
  - reflexivity.
  - discriminate.
Defined.

(** *** What [addMessage] hands back *)

(** X5.  [addMessage] returns the message it stores: the returned object
    carries the caller's data under the id the data carries, or under the
    generated id when it carries none; it is the last message of the new
    list and every earlier message keeps its position.  When the data says
    [isStreaming: true] the pointer becomes the generated id, which is the
    returned id when the data carries no id; otherwise the pointer is
    kept. *)
Theorem addMessage_returns_the_stored_message
    (now : N) (rnd : string) (messageData : MessageData) (state : ChatState) :
  let newMessage := fst (addMessage now rnd messageData state) in
  let state' := snd (addMessage now rnd messageData state) in
  id newMessage = match d_id messageData with
                  | Some carried => carried
                  | None => freshId now rnd
                  end /\
  (text newMessage = d_text messageData /\
   isUser newMessage = d_isUser messageData /\
   isStreaming newMessage = d_isStreaming messageData /\
   wasManuallyStopped newMessage = d_wasManuallyStopped messageData /\
   error newMessage = d_error messageData /\
   attachments newMessage = d_attachments messageData) /\
  nth_error (messages state') (List.length (messages state)) = Some newMessage /\
  List.length (messages state') = S (List.length (messages state)) /\
  (forall k m, nth_error (messages state) k = Some m ->
               nth_error (messages state') k = Some m) /\
  (d_isStreaming messageData = Some true ->
     streamingMessageId state' = Some (freshId now rnd)) /\
  (d_isStreaming messageData = Some true -> d_id messageData = None ->
     streamingMessageId state' = Some (id newMessage)) /\
  (d_isStreaming messageData <> Some true ->
     streamingMessageId state' = streamingMessageId state) /\
  sameSessionFields state state'.
Proof.
  cbv zeta. simpl. repeat apply conj; try reflexivity.
  - rewrite nth_error_app2, Nat.sub_diag; [reflexivity | apply Nat.le_refl].
  - rewrite length_app. simpl. lia.
  - intros k m Hk. rewrite nth_error_app1; [exact Hk|].
    apply nth_error_Some. rewrite Hk. discriminate.
  - intros ->. reflexivity.
  - intros -> ->. reflexivity.
  - intros Hs. destruct (d_isStreaming messageData) as [[|]|];
      try reflexivity. contradiction Hs. reflexivity.
Qed.

Lemma addMessage_returns_the_stored_message_witness :
  streamingMessageId (snd (addMessage 1002 "z1y2x3w" (assistantStreams "") midStream))
    = Some (id (fst (addMessage 1002 "z1y2x3w" (assistantStreams "") midStream))) /\
  streamingMessageId (snd (addMessage 1002 "z1y2x3w" (copyOfStored idA "He") midStream))
    = Some "msg-1002-z1y2x3w" /\
  streamingMessageId (snd (addMessage 1002 "z1y2x3w" (userSays "more") midStream))
    = Some idA.
Proof.
  destruct (addMessage_returns_the_stored_message
              1002 "z1y2x3w" (assistantStreams "") midStream)
    as [_ [_ [_ [_ [_ [_ [Hown _]]]]]]].
  destruct (addMessage_returns_the_stored_message
              1002 "z1y2x3w" (copyOfStored idA "He") midStream)
    as [_ [_ [_ [_ [_ [Hon _]]]]]].
  destruct (addMessage_returns_the_stored_message
              1002 "z1y2x3w" (userSays "more") midStream)
    as [_ [_ [_ [_ [_ [_ [_ [Hoff _]]]]]]]].
  split; [|split].
  - apply Hown; reflexivity.
  - rewrite Hon; reflexivity.
  - rewrite Hoff; [reflexivity | discriminate].
Defined.

(** *** Rewrites of the same list *)

Lemma mapMatching_comm i j f g l :
  (forall m, id (f m) = id m) -> (forall m, id (g m) = id m) ->
  (forall m, f (g m) = g (f m)) ->
  mapMatching i f (mapMatching j g l) = mapMatching j g (mapMatching i f l).
Proof.
  intros Hf Hg Hfg. unfold mapMatching. rewrite !map_map. apply map_ext.
  intros m.
  destruct (String.eqb (id m) j) eqn:Ej, (String.eqb (id m) i) eqn:Ei;
    rewrite ?Hf, ?Hg, ?Ej, ?Ei, ?Hfg; reflexivity.
Qed.

Lemma mapMatching_fuse i f g h l :
  (forall m, id (g m) = id m) -> (forall m, f (g m) = h m) ->
  mapMatching i f (mapMatching i g l) = mapMatching i h l.
Proof.
  intros Hg Hfg. unfold mapMatching. rewrite map_map. apply map_ext.
  intros m. destruct (String.eqb (id m) i) eqn:E;
    rewrite ?Hg, ?E, ?Hfg; reflexivity.
Qed.

(** *** The error field *)

(** X6.  [setMessageError(id, error)] writes [error] on the messages whose id
    matches and changes nothing else: text, [isStreaming] and
    [wasManuallyStopped] of every message, the pointer and the session
    fields stay as they were.  A second call for the same id overrides the
    first, so setting an error and then [null] leaves the state that
    setting [null] alone gives. *)
Theorem setMessageError_spec (state : ChatState) (i : string)
    (e e' : option string) :
  let state' := setMessageError i e state in
  (forall k m, nth_error (messages state) k = Some m ->
     exists m', nth_error (messages state') k = Some m' /\
       (id m = i -> error m' = Some e) /\
       (id m <> i -> m' = m) /\
       text m' = text m /\ isStreaming m' = isStreaming m /\
       wasManuallyStopped m' = wasManuallyStopped m /\
       id m' = id m /\ isUser m' = isUser m /\
       attachments m' = attachments m) /\
  streamingMessageId state' = streamingMessageId state /\
  sameSessionFields state state' /\
  setMessageError i e' (setMessageError i e state) = setMessageError i e' state.
Proof.
  cbv zeta. repeat apply conj; try reflexivity.
  - intros k m Hk.
    destruct (mapMatching_pointwise i (withError e) _ k m Hk)
      as [m' [Hk' [Hhit Hmiss]]].
    exists m'. split; [exact Hk'|].
    destruct (String.eqb_spec (id m) i) as [E|NE].
    + rewrite (Hhit E). simpl. repeat split. intros NE. contradiction.
    + rewrite (Hmiss NE). repeat split; try reflexivity.
      intros E. contradiction.
  - unfold setMessageError. simpl. f_equal.
    apply mapMatching_fuse; intros m; reflexivity.
Qed.

Lemma setMessageError_spec_witness :
  exists m', nth_error (messages (setMessageError idA (Some "boom") midStream)) 1
             = Some m' /\
             error m' = Some (Some "boom") /\ isStreaming m' = Some true.
Proof.
  destruct (setMessageError_spec midStream idA (Some "boom") None)
    as [Hat _].
  destruct (Hat 1 (withId idA (assistantStreams "He")) eq_refl)
    as [m' [Hk [Herr [_ [_ [Hs _]]]]]].
  exists m'. split; [exact Hk|]. split; [apply Herr; reflexivity | exact Hs].
Defined.

(** *** The life of a stored message *)

Lemma string_append_nil_r (a : string) : (a ++ "")%string = a.
Proof. induction a as [|x a IH]; simpl; [reflexivity | rewrite IH; reflexivity]. Qed.

Lemma evolves_refl m : evolves m m.
Proof.
  unfold evolves, textGrows. repeat split; try (intros H; exact H).
  exists "". symmetry. apply string_append_nil_r.
Qed.

Lemma evolves_trans m1 m2 m3 : evolves m1 m2 -> evolves m2 m3 -> evolves m1 m3.
Proof.
  unfold evolves, textGrows.
  intros [Hid [Hu [Ha [[s1 Ht] [Hs Hw]]]]] [Hid' [Hu' [Ha' [[s2 Ht'] [Hs' Hw']]]]].
  repeat split; try congruence.
  - exists (s1 ++ s2)%string. rewrite Ht', Ht. apply string_append_assoc.
  - intros H. apply Hs, Hs', H.
  - intros H. apply Hw', Hw, H.
Qed.

Lemma evolves_rewrite (f : ChatMessage -> ChatMessage) i l k m :
  (forall x, evolves x (f x)) ->
  nth_error l k = Some m ->
  exists m', nth_error (mapMatching i f l) k = Some m' /\ evolves m m'.
Proof.
  intros Hf Hk. rewrite mapMatching_nth, Hk. simpl.
  eexists. split; [reflexivity|].
  destruct (String.eqb (id m) i); [apply Hf | apply evolves_refl].
Qed.

Lemma step_evolves state a k m :
  isClear a = false ->
  nth_error (messages state) k = Some m ->
  exists m', nth_error (messages (step state a)) k = Some m' /\ evolves m m'.
Proof.
  intros Hclear Hk. destruct a; simpl in *; try discriminate Hclear;
    try (exists m; split; [exact Hk | apply evolves_refl]).
  - exists m. split; [|apply evolves_refl].
    rewrite nth_error_app1; [exact Hk|].
    apply nth_error_Some. rewrite Hk. discriminate.
  - apply evolves_rewrite; [|exact Hk]. intros x.
    unfold evolves, textGrows. simpl. repeat split; try (intros H; exact H).
    exists chunk. reflexivity.
  - apply evolves_rewrite; [|exact Hk]. intros x.
    unfold evolves, textGrows, streamingNow. simpl.
    repeat split; try (intros H; exact H); try discriminate.
    exists "". symmetry. apply string_append_nil_r.
  - apply evolves_rewrite; [|exact Hk]. intros x.
    unfold evolves, textGrows, streamingNow. simpl.
    repeat split; try discriminate.
    exists "". symmetry. apply string_append_nil_r.
  - apply evolves_rewrite; [|exact Hk]. intros x.
    unfold evolves, textGrows. simpl. repeat split; try (intros H; exact H).
    exists "". symmetry. apply string_append_nil_r.
Qed.

(** X7.  Over any sequence of actions without [clearMessages], a stored
    message stays at its position with the same id, [isUser] and
    attachments; its text only grows on the right; its [isStreaming] flag is
    never turned on again once it is not [true]; and [wasManuallyStopped],
    once [true], stays [true]. *)
Theorem stored_message_only_evolves
    (acts : list Action) (state : ChatState) (k : nat) (m : ChatMessage)
    (Hnoclear : forallb (fun a => negb (isClear a)) acts = true)
    (Hat : nth_error (messages state) k = Some m) :
  exists m', nth_error (messages (run state acts)) k = Some m' /\ evolves m m'.
Proof.
  revert state m Hat. induction acts as [|a acts IH]; intros state m Hat.
  - exists m. split; [exact Hat | apply evolves_refl].
  - simpl in Hnoclear. apply andb_true_iff in Hnoclear.
    destruct Hnoclear as [Ha Hrest]. apply negb_true_iff in Ha.
    destruct (step_evolves state a k m Ha Hat) as [m1 [H1 E1]].
    destruct (IH Hrest (step state a) m1 H1) as [m' [H' E']].
    exists m'. split; [exact H'|]. apply (evolves_trans m m1 m'); assumption.
Qed.

Lemma stored_message_only_evolves_witness :
  exists m', nth_error (messages (run midStream
                         [AppendMessageChunk idA "llo";
                          MarkAsManuallyStopped idA;
                          AddMessage 1002 "z1y2x3w" (userSays "again")])) 1
             = Some m' /\
             evolves (withId idA (assistantStreams "He")) m'.
Proof.
  apply (stored_message_only_evolves _ midStream 1); reflexivity.
Defined.

(** *** Events that arrive late, twice or in another order *)

(** X8.  A chunk commutes with the end of the stream, with a manual stop and
    with an error, for any two ids, the same id included: a chunk that
    arrives after the stop leaves the state that the other order gives. *)
Theorem chunk_commutes_with_stop_and_error
    (state : ChatState) (i j chunk : string) (e : option string) :
  appendMessageChunk j chunk (finalizeStreamingMessage i state)
    = finalizeStreamingMessage i (appendMessageChunk j chunk state) /\
  appendMessageChunk j chunk (markAsManuallyStopped i state)
    = markAsManuallyStopped i (appendMessageChunk j chunk state) /\
  appendMessageChunk j chunk (setMessageError i e state)
    = setMessageError i e (appendMessageChunk j chunk state).
Proof.
  unfold appendMessageChunk, finalizeStreamingMessage, markAsManuallyStopped,
    setMessageError. simpl.
  repeat apply conj; f_equal; apply mapMatching_comm; intros m; reflexivity.
Qed.

Lemma clearIfPointsAt_twice i p :
  clearIfPointsAt i (clearIfPointsAt i p) = clearIfPointsAt i p.
Proof.
  destruct p as [q|]; simpl; [|reflexivity].
  destruct (String.eqb q i) eqn:E; simpl; [reflexivity | rewrite E; reflexivity].
Qed.

(** X9.  Ending a stream twice is the same as ending it once, for
    [finalizeStreamingMessage] and for [markAsManuallyStopped]; and when both
    are called for one id, in either order, the result is the state the
    manual stop alone gives. *)
Theorem repeated_stop_is_absorbed (state : ChatState) (i : string) :
  finalizeStreamingMessage i (finalizeStreamingMessage i state)
    = finalizeStreamingMessage i state /\
  markAsManuallyStopped i (markAsManuallyStopped i state)
    = markAsManuallyStopped i state /\
  finalizeStreamingMessage i (markAsManuallyStopped i state)
    = markAsManuallyStopped i state /\
  markAsManuallyStopped i (finalizeStreamingMessage i state)
    = markAsManuallyStopped i state.
Proof.
  unfold finalizeStreamingMessage, markAsManuallyStopped. simpl.
  repeat apply conj; f_equal;
    try apply clearIfPointsAt_twice;
    apply mapMatching_fuse; intros m; reflexivity.
Qed.

(** *** A stream opened over another one *)

(** X10.  When a second streaming message is added while a first one is
    still streaming, neither carrying an id of its own, and the second is
    then finalized under its generated id, the pointer is [null]
    and [selectIsProcessing] falls back to [isWaitingForResponse], while the
    first message is still stored with [isStreaming = true]: the store does
    not see it as in progress any more. *)
Theorem overlapped_stream_keeps_its_flag
    (state : ChatState) (now1 now2 : N) (rnd1 rnd2 : string)
    (d1 d2 : MessageData)
    (Hgenerated1 : d_id d1 = None)
    (Hgenerated2 : d_id d2 = None)
    (Hfirst : d_isStreaming d1 = Some true)
    (Hsecond : d_isStreaming d2 = Some true)
    (Hids : freshId now1 rnd1 <> freshId now2 rnd2) :
  let s1 := snd (addMessage now1 rnd1 d1 state) in
  let s2 := snd (addMessage now2 rnd2 d2 s1) in
  let s3 := finalizeStreamingMessage (freshId now2 rnd2) s2 in
  streamingMessageId s3 = None /\
  selectIsProcessing s3 = isWaitingForResponse state /\
  exists m, nth_error (messages s3) (List.length (messages state)) = Some m /\
            id m = freshId now1 rnd1 /\ isStreaming m = Some true.
Proof.
  cbv zeta. unfold selectIsProcessing, addMessage.
  set (f1 := freshId now1 rnd1) in *. set (f2 := freshId now2 rnd2) in *.
  clearbody f1 f2. simpl.
  rewrite Hsecond. simpl. rewrite String.eqb_refl.
  split; [reflexivity|]. split; [apply orb_false_r|].
  exists (withId f1 d1).
  split; [|split; [unfold withId; simpl; rewrite Hgenerated1; reflexivity
                  | exact Hfirst]].
  rewrite mapMatching_nth.
  rewrite nth_error_app1 by (rewrite length_app; simpl; lia).
  rewrite nth_error_app2, Nat.sub_diag by apply Nat.le_refl. simpl.
  rewrite Hgenerated1.
  destruct (String.eqb_spec f1 f2); [contradiction | reflexivity].
Qed.

Lemma overlapped_stream_keeps_its_flag_witness :
  let s3 := run initialState
              (twoStreams ++ [FinalizeStreamingMessage (freshId 1001 "p7m2z4c")]) in
  streamingMessageId s3 = None /\
  selectIsProcessing s3 = false /\
  exists m, nth_error (messages s3) 0 = Some m /\
            id m = freshId 1000 "k3x9q0a" /\ isStreaming m = Some true.
Proof.
  apply (overlapped_stream_keeps_its_flag initialState 1000 1001
           "k3x9q0a" "p7m2z4c" (assistantStreams "") (assistantStreams ""));
    [reflexivity | reflexivity | reflexivity | reflexivity
    | vm_compute; discriminate].
Defined.

(** *** The pointer, while ids are generated *)

(** X21.  As long as the data handed to [addMessage] carries no id of its
    own, a set pointer names a stored message flagged as streaming: this
    holds after every sequence of such actions from the initial state, and
    each single such action keeps it.  [finalizeStreamingMessage] and
    [markAsManuallyStopped] called on the tracked id leave the pointer
    [null] in the very state in which the flag of the messages with that id
    is off. *)
Theorem pointer_valid_while_ids_are_generated :
  (forall acts, forallb carriesNoId acts = true ->
     pointerValid (run initialState acts)) /\
  (forall state a, carriesNoId a = true ->
     pointerValid state -> pointerValid (step state a)) /\
  (forall state i, streamingMessageId state = Some i ->
     (streamingMessageId (finalizeStreamingMessage i state) = None /\
      forall m, In m (messages (finalizeStreamingMessage i state)) ->
                id m = i -> isStreaming m = Some false) /\
     (streamingMessageId (markAsManuallyStopped i state) = None /\
      forall m, In m (messages (markAsManuallyStopped i state)) ->
                id m = i -> isStreaming m = Some false)).
Proof.
  split; [|split].
  - intros acts Hno. apply run_pointerValid; [exact Hno | exact I].
  - exact step_pointerValid.
  - intros state i Hp. simpl. rewrite Hp, clearIfPointsAt_hit.
    split; (split; [reflexivity|]);
      apply mapMatching_flag_off; intros m; reflexivity.
Qed.

Lemma pointer_valid_while_ids_are_generated_witness :
  pointerValid midStream /\
  pointerValid (step midStream (FinalizeStreamingMessage idA)) /\
  streamingMessageId midStream = Some idA /\
  streamingMessageId (markAsManuallyStopped idA midStream) = None.
Proof.
  pose proof pointer_valid_while_ids_are_generated as [Hrun [Hstep Hclear]].
  assert (Hmid : pointerValid midStream) by (apply Hrun; reflexivity).
  split; [exact Hmid|].
  split; [apply Hstep; [reflexivity | exact Hmid]|].
  split; [reflexivity|].
  apply (Hclear midStream idA). reflexivity.
Defined.

End ChatStoreLaws.

(* ===================================================================== *)
(** ** Further laws of the API key access layer                            *)
(* ===================================================================== *)

Module ApiKeysLaws.
Import ApiKeys ApiKeysSpec.

Lemma returns_not_thrown {A} (m : Async A) w e w' :
  returns m w -> m w <> (Thrown e, w').
Proof. intros [a [w0 E]] H. rewrite E in H. discriminate H. Qed.

(** *** Where a fault can come from *)

(** X11.  [getApiKeyByServiceInstance], [deleteApiKey], [getDecryptedApiKey]
    and [incrementApiKeyUsage] come back with a value whatever the backend
    answers, whatever the environment holds and whatever the encryption
    module does, a fault of [decryptApiKey] included; so do [createApiKey]
    and [updateApiKey] when called with [isEncrypted = true]. *)
Theorem reads_and_deletes_never_throw
    {supabase : Supabase} {encryption : Encryption}
    (env : ProcessEnv) (w : World) (anId : string)
    (apiKey : NewApiKey) (updates : ApiKeyUpdates) :
  returns (getApiKeyByServiceInstance anId) w /\
  returns (deleteApiKey anId) w /\
  returns (getDecryptedApiKey env anId) w /\
  returns (incrementApiKeyUsage anId) w /\
  returns (createApiKey env apiKey true) w /\
  returns (updateApiKey env anId updates true) w.
Proof.
  repeat apply conj.
  - apply getApiKeyByServiceInstance_returns.
  - apply deleteApiKey_returns.
  - apply getDecryptedApiKey_returns.
  - apply incrementApiKeyUsage_returns.
  - unfold createApiKey. simpl. apply insertAndRead_returns.
  - unfold updateApiKey. rewrite andb_false_r. apply updateAndRead_returns.
Qed.

(** X12.  A fault that leaves [createApiKey] or [updateApiKey] is the fault
    [encryptApiKey] threw on the supplied plaintext under the configured,
    non-empty master key; the call was made with [isEncrypted = false], and
    by then nothing had been sent to the backend or written to the console. *)
Theorem write_fault_is_the_encryption_fault
    {supabase : Supabase} {encryption : Encryption}
    (env : ProcessEnv) (w w' : World) (e : Fault) (isEncrypted : bool)
    (apiKey : NewApiKey) (rowId : string) (updates : ApiKeyUpdates) :
  (createApiKey env apiKey isEncrypted w = (Thrown e, w') ->
     isEncrypted = false /\ w' = w /\
     exists k, API_ENCRYPTION_KEY env = Some k /\ k <> "" /\
               encryptApiKey (new_key_value apiKey) k = Thrown e) /\
  (updateApiKey env rowId updates isEncrypted w = (Thrown e, w') ->
     isEncrypted = false /\ w' = w /\
     exists k plain, API_ENCRYPTION_KEY env = Some k /\ k <> "" /\
                     upd_key_value updates = Some plain /\ plain <> "" /\
                     encryptApiKey plain k = Thrown e).
Proof.
  split.
  - unfold createApiKey. destruct isEncrypted; simpl.
    + intros H. exfalso.
      exact (returns_not_thrown _ _ _ _ (insertAndRead_returns _ _ _) H).
    + destruct (API_ENCRYPTION_KEY env) as [k|]; simpl;
        [|intros H; discriminate H].
      destruct (String.eqb_spec k "") as [_|Hk]; [intros H; discriminate H|].
      unfold bind at 1, call.
      destruct (encryptApiKey (new_key_value apiKey) k) as [c|e0] eqn:Hc.
      * intros H. exfalso.
        exact (returns_not_thrown _ _ _ _ (insertAndRead_returns _ _ _) H).
      * intros H. injection H as -> ->.
        split; [reflexivity|]. split; [reflexivity|].
        exists k. repeat split; assumption.
  - unfold updateApiKey.
    destruct (upd_key_value updates) as [plain|] eqn:Hp; simpl;
      [|intros H; exfalso;
        exact (returns_not_thrown _ _ _ _ (updateAndRead_returns _ _ _) H)].
    destruct (String.eqb_spec plain "") as [_|Hne]; simpl;
      [intros H; exfalso;
       exact (returns_not_thrown _ _ _ _ (updateAndRead_returns _ _ _) H)|].
    destruct isEncrypted; simpl;
      [intros H; exfalso;
       exact (returns_not_thrown _ _ _ _ (updateAndRead_returns _ _ _) H)|].
    destruct (API_ENCRYPTION_KEY env) as [k|]; simpl;
      [|intros H; discriminate H].
    destruct (String.eqb_spec k "") as [_|Hk]; [intros H; discriminate H|].
    unfold bind at 1, call.
    destruct (encryptApiKey plain k) as [c|e0] eqn:Hc.
    + intros H. exfalso.
      exact (returns_not_thrown _ _ _ _ (updateAndRead_returns _ _ _) H).
    + intros H. injection H as -> ->.
      split; [reflexivity|]. split; [reflexivity|].
      exists k, plain. repeat split; assumption.
Qed.

Lemma write_fault_is_the_encryption_fault_witness :
  @createApiKey acceptingBackend faultyEncryption withMasterKey
     plainKey false emptyWorld = (Thrown "Invalid key length", emptyWorld) /\
  exists k, API_ENCRYPTION_KEY withMasterKey = Some k /\ k <> "" /\
            @encryptApiKey faultyEncryption (new_key_value plainKey) k
              = Thrown "Invalid key length".
Proof.
  split; [reflexivity|].
  destruct (@write_fault_is_the_encryption_fault
              acceptingBackend faultyEncryption withMasterKey
              emptyWorld emptyWorld "Invalid key length" false
              plainKey "key-1" rotateKey) as [Hcreate _].
  destruct (Hcreate eq_refl) as [_ [_ Hk]]. exact Hk.
Defined.

(** *** When a call succeeds *)



(** X13.  [getApiKeyByServiceInstance] returns a row exactly when the
    backend answered with that row and no error: an answer that carries an
    error comes back as [null] even when it also carries data.
    [deleteApiKey] and [incrementApiKeyUsage] return [true] exactly when the
    answer carries no error, whatever its data. *)
Theorem reads_succeed_iff_backend_did
    {supabase : Supabase} (w : World) (anId : string) (row : ApiKey) :
  (fst (getApiKeyByServiceInstance anId w) = Returned (Some row) <->
   selectDefaultKey anId = mkResponse (Some row) None) /\
  (fst (deleteApiKey anId w) = Returned true <-> error (deleteKey anId) = None) /\
  (fst (incrementApiKeyUsage anId w) = Returned true <->
   error (rpcIncrementUsage anId) = None).
Proof.
  repeat apply conj.
  - unfold getApiKeyByServiceInstance. run_async.
    destruct (selectDefaultKey anId) as [[r|] [err|]]; simpl;
      intros H; try discriminate H; congruence.
  - unfold getApiKeyByServiceInstance. run_async.
    destruct (selectDefaultKey anId) as [[r|] [err|]]; simpl;
      intros H; try discriminate H; congruence.
  - unfold deleteApiKey. run_async.
    destruct (deleteKey anId) as [d [err|]]; simpl;
      intros H; try discriminate H; reflexivity.
  - unfold deleteApiKey. run_async.
    destruct (deleteKey anId) as [d [err|]]; simpl;
      intros H; try discriminate H; reflexivity.
  - unfold incrementApiKeyUsage. run_async.
    destruct (rpcIncrementUsage anId) as [d [err|]]; simpl;
      intros H; try discriminate H; reflexivity.
  - unfold incrementApiKeyUsage. run_async.
    destruct (rpcIncrementUsage anId) as [d [err|]]; simpl;
      intros H; try discriminate H; reflexivity.
Qed.

Lemma reads_succeed_iff_backend_did_witness :
  fst (@getApiKeyByServiceInstance acceptingBackend "dify-1" emptyWorld)
    = Returned (Some (storedRow "key-1" "dify-1" "stored" true)) /\
  fst (@deleteApiKey acceptingBackend "key-1" emptyWorld) = Returned true.
Proof.
  destruct (@reads_succeed_iff_backend_did acceptingBackend emptyWorld "dify-1"
              (storedRow "key-1" "dify-1" "stored" true)) as [Hget _].
  destruct (@reads_succeed_iff_backend_did acceptingBackend emptyWorld "key-1"
              (storedRow "key-1" "dify-1" "stored" true)) as [_ [Hdel _]].
  split; [apply Hget | apply Hdel]; reflexivity.
Defined.

(** X14.  [getDecryptedApiKey] returns a string exactly when the backend
    answered with a stored value and no error, [API_ENCRYPTION_KEY] is set
    and not empty, and [decryptApiKey] returned that string for the stored
    value under that key; in every other case it returns [null]. *)
Theorem getDecryptedApiKey_succeeds_iff
    {supabase : Supabase} {encryption : Encryption}
    (env : ProcessEnv) (w : World) (apiKeyId plain : string) :
  (fst (getDecryptedApiKey env apiKeyId w) = Returned (Some plain) <->
   exists stored k,
     selectKeyValue apiKeyId = mkResponse (Some stored) None /\
     API_ENCRYPTION_KEY env = Some k /\ k <> "" /\
     decryptApiKey stored k = Returned plain) /\
  ((forall p, fst (getDecryptedApiKey env apiKeyId w) <> Returned (Some p)) ->
   fst (getDecryptedApiKey env apiKeyId w) = Returned None).
Proof.
  split; [split|].
  - unfold getDecryptedApiKey. run_async.
    destruct (selectKeyValue apiKeyId) as [[stored|] [err|]]; simpl;
      try (intros H; discriminate H).
    destruct (API_ENCRYPTION_KEY env) as [k|]; simpl;
      [|intros H; discriminate H].
    destruct (String.eqb_spec k "") as [_|Hk]; simpl;
      [intros H; discriminate H|].
    destruct (decryptApiKey stored k) as [p|e] eqn:Hd; simpl;
      [|intros H; discriminate H].
    intros H. injection H as ->. exists stored, k. repeat split; assumption.
  - intros [stored [k [Hsel [Hk [Hne Hd]]]]].
    unfold getDecryptedApiKey. run_async. rewrite Hsel, Hk. simpl.
    destruct (String.eqb_spec k ""); [contradiction|]. simpl.
    rewrite Hd. reflexivity.
  - intros Hnone.
    destruct (getDecryptedApiKey_returns env w apiKeyId) as [[p|] [w' E]];
      rewrite E in *; simpl in *; [|reflexivity].
    exfalso. apply (Hnone p). reflexivity.
Qed.

Lemma getDecryptedApiKey_succeeds_iff_witness :
  fst (@getDecryptedApiKey acceptingBackend taggingEncryption withMasterKey
         "key-1" emptyWorld) = Returned (Some "dec(master):stored").
Proof.
  apply (@getDecryptedApiKey_succeeds_iff acceptingBackend taggingEncryption
           withMasterKey emptyWorld "key-1" "dec(master):stored").
  exists "stored", "master". repeat split. discriminate.
Defined.



(** *** The console and the queries *)

Lemma bind_call {A B} (o : outcome A) (k : A -> Async B) (w : World) :
  bind (call o) k w =
  match o with
  | Returned a => k a w
  | Thrown e => (Thrown e, w)
  end.
Proof. unfold bind, call. destruct o; reflexivity. Qed.

Ltac settle_log :=
  unfold logsExactlyFailures, logged; simpl; split; intros H;
  try discriminate H; try (contradiction H; reflexivity);
  try (eexists; reflexivity); try (symmetry; apply app_nil_r).

(** X16.  Every operation writes exactly one line to the console when it
    comes back with its sentinel ([null] or [false]) and none when it comes
    back with a result or throws: a failure is never silent and a success
    never logs. *)
Theorem failures_are_logged_once
    {supabase : Supabase} {encryption : Encryption}
    (env : ProcessEnv) (w : World) (isEncrypted : bool) (anId : string)
    (apiKey : NewApiKey) (updates : ApiKeyUpdates) :
  logsExactlyFailures None (getApiKeyByServiceInstance anId) w /\
  logsExactlyFailures None (createApiKey env apiKey isEncrypted) w /\
  logsExactlyFailures None (updateApiKey env anId updates isEncrypted) w /\
  logsExactlyFailures false (deleteApiKey anId) w /\
  logsExactlyFailures None (getDecryptedApiKey env anId) w /\
  logsExactlyFailures false (incrementApiKeyUsage anId) w.
Proof.
  assert (Hins : forall kv, logsExactlyFailures None (insertAndRead apiKey kv) w).
  { intros kv. unfold insertAndRead. run_async.
    destruct (insertKey (withKeyValue apiKey kv)) as [[r|] [err|]]; settle_log. }
  assert (Hupd : forall u, logsExactlyFailures None (updateAndRead anId u) w).
  { intros u. unfold updateAndRead. run_async.
    destruct (updateKey anId u) as [[r|] [err|]]; settle_log. }
  split; [|split; [|split; [|split; [|split]]]].
  - unfold getApiKeyByServiceInstance. run_async.
    destruct (selectDefaultKey anId) as [[r|] [err|]]; settle_log.
  - unfold createApiKey. destruct isEncrypted; simpl; [apply Hins|].
    destruct (API_ENCRYPTION_KEY env) as [k|]; simpl; [|run_async; settle_log].
    destruct (String.eqb k ""); [run_async; settle_log|].
    unfold bind at 1, call.
    destruct (encryptApiKey (new_key_value apiKey) k) as [c|e];
      [apply Hins | settle_log].
  - unfold updateApiKey.
    destruct (negb (falsy (upd_key_value updates)) && negb isEncrypted);
      [|apply Hupd].
    destruct (API_ENCRYPTION_KEY env) as [k|]; simpl; [|run_async; settle_log].
    destruct (upd_key_value updates) as [plain|]; [|run_async; settle_log].
    destruct (String.eqb k ""); [run_async; settle_log|].
    unfold bind at 1, call.
    destruct (encryptApiKey plain k) as [c|e]; [apply Hupd | settle_log].
  - unfold deleteApiKey. run_async.
    destruct (deleteKey anId) as [d [err|]]; settle_log.
  - unfold getDecryptedApiKey. run_async.
    destruct (selectKeyValue anId) as [[stored|] [err|]];
      [settle_log | | settle_log | settle_log].
    simpl. destruct (API_ENCRYPTION_KEY env) as [k|]; simpl; [|settle_log].
    destruct (String.eqb k ""); simpl; [settle_log|].
    destruct (decryptApiKey stored k) as [p|e]; settle_log.
  - unfold incrementApiKeyUsage. run_async.
    destruct (rpcIncrementUsage anId) as [d [err|]]; settle_log.
Qed.

Lemma failures_are_logged_once_witness :
  exists d,
    logged emptyWorld
      (snd (@createApiKey acceptingBackend taggingEncryption noMasterKey
              plainKey false emptyWorld)) [d].
Proof.
  destruct (@failures_are_logged_once acceptingBackend taggingEncryption
              noMasterKey emptyWorld false "key-1" plainKey rotateKey)
    as [_ [[Hfail _] _]].
  apply Hfail. reflexivity.
Defined.

(** X17.  Each operation sends at most one query, of its own kind and for
    the id or row it was given.  The four operations that do not write a key
    send theirs whatever happens next; [createApiKey] sends nothing or the
    insert of the supplied row with at most [key_value] replaced, and
    [updateApiKey] nothing or the update of the given id with at most
    [key_value] replaced. *)
Theorem one_query_per_call
    {supabase : Supabase} {encryption : Encryption}
    (env : ProcessEnv) (w : World) (isEncrypted : bool) (anId : string)
    (apiKey : NewApiKey) (updates : ApiKeyUpdates) :
  sent w (snd (getApiKeyByServiceInstance anId w)) [SelectDefaultKey anId] /\
  sent w (snd (deleteApiKey anId w)) [DeleteKey anId] /\
  sent w (snd (getDecryptedApiKey env anId w)) [SelectKeyValue anId] /\
  sent w (snd (incrementApiKeyUsage anId w)) [RpcIncrementUsage anId] /\
  (sent w (snd (createApiKey env apiKey isEncrypted w)) [] \/
   exists keyValue,
     sent w (snd (createApiKey env apiKey isEncrypted w))
       [InsertKey (withKeyValue apiKey keyValue)]) /\
  (sent w (snd (updateApiKey env anId updates isEncrypted w)) [] \/
   sent w (snd (updateApiKey env anId updates isEncrypted w))
     [UpdateKey anId updates] \/
   exists keyValue,
     sent w (snd (updateApiKey env anId updates isEncrypted w))
       [UpdateKey anId (setKeyValue updates keyValue)]).
Proof.
  unfold sent. repeat apply conj.
  - unfold getApiKeyByServiceInstance. run_async.
    destruct (selectDefaultKey anId) as [[r|] [err|]]; reflexivity.
  - unfold deleteApiKey. run_async.
    destruct (deleteKey anId) as [d [err|]]; reflexivity.
  - unfold getDecryptedApiKey. run_async.
    destruct (selectKeyValue anId) as [[stored|] [err|]]; try reflexivity.
    simpl. destruct (API_ENCRYPTION_KEY env) as [k|]; simpl; [|reflexivity].
    destruct (String.eqb k ""); simpl; [reflexivity|].
    destruct (decryptApiKey stored k) as [p|e]; reflexivity.
  - unfold incrementApiKeyUsage. run_async.
    destruct (rpcIncrementUsage anId) as [d [err|]]; reflexivity.
  - unfold createApiKey. destruct isEncrypted; simpl.
    + right. exists (new_key_value apiKey). apply insertAndRead_requests.
    + destruct (API_ENCRYPTION_KEY env) as [k|]; simpl;
        [|left; symmetry; apply app_nil_r].
      destruct (String.eqb k ""); [left; symmetry; apply app_nil_r|].
      rewrite !bind_call.
      destruct (encryptApiKey (new_key_value apiKey) k) as [c|e].
      * right. exists c. apply insertAndRead_requests.
      * left. symmetry. apply app_nil_r.
  - unfold updateApiKey.
    destruct (negb (falsy (upd_key_value updates)) && negb isEncrypted);
      [|right; left; apply updateAndRead_requests].
    destruct (API_ENCRYPTION_KEY env) as [k|]; simpl;
      [|left; symmetry; apply app_nil_r].
    destruct (upd_key_value updates) as [plain|];
      [|left; symmetry; apply app_nil_r].
    destruct (String.eqb k ""); [left; symmetry; apply app_nil_r|].
    rewrite !bind_call.
    destruct (encryptApiKey plain k) as [c|e].
    + right. right. exists c. apply updateAndRead_requests.
    + left. symmetry. apply app_nil_r.
Qed.

(** *** The master key *)

(** X18.  An update that carries no [key_value], or an empty one, goes out
    unchanged: its outcome depends neither on [API_ENCRYPTION_KEY], nor on
    [isEncrypted], nor on the encryption module. *)
Theorem update_without_key_needs_no_master_key
    {supabase : Supabase} (encryption1 encryption2 : Encryption)
    (env1 env2 : ProcessEnv) (flag1 flag2 : bool)
    (rowId : string) (updates : ApiKeyUpdates) (w : World)
    (Hnokey : falsy (upd_key_value updates) = true) :
  @updateApiKey supabase encryption1 env1 rowId updates flag1 w
    = @updateApiKey supabase encryption2 env2 rowId updates flag2 w /\
  sent w (snd (@updateApiKey supabase encryption1 env1 rowId updates flag1 w))
    [UpdateKey rowId updates].
Proof.
  unfold updateApiKey, sent. rewrite Hnokey. simpl.
  split; [reflexivity | apply updateAndRead_requests].
Qed.

Lemma update_without_key_needs_no_master_key_witness :
  @updateApiKey acceptingBackend faultyEncryption noMasterKey
     "key-1" emptyKeyUpdate false emptyWorld
  = @updateApiKey acceptingBackend taggingEncryption withMasterKey
     "key-1" emptyKeyUpdate true emptyWorld.
Proof.
  apply (@update_without_key_needs_no_master_key acceptingBackend
           faultyEncryption taggingEncryption noMasterKey withMasterKey
           false true "key-1" emptyKeyUpdate emptyWorld).
  reflexivity.
Defined.

(** X19.  While [API_ENCRYPTION_KEY] is unset or empty, a plaintext key is
    never sent: [createApiKey], and [updateApiKey] with a non-empty
    [key_value], called with [isEncrypted = false], return [null] with one
    console line and no query; [getDecryptedApiKey] returns [null] for a
    stored value it cannot decrypt. *)
Theorem no_master_key_no_plaintext_write
    {supabase : Supabase} {encryption : Encryption}
    (env : ProcessEnv) (w : World) (apiKey : NewApiKey)
    (rowId : string) (updates : ApiKeyUpdates) (plain : string)
    (apiKeyId stored : string)
    (Hunset : falsy (API_ENCRYPTION_KEY env) = true) :
  createApiKey env apiKey false w
    = (Returned None,
       {| requests := requests w;
          console := console w ++ [NoMasterKeyToEncrypt] |}) /\
  (upd_key_value updates = Some plain -> plain <> "" ->
   updateApiKey env rowId updates false w
     = (Returned None,
        {| requests := requests w;
           console := console w ++ [NoMasterKeyToEncrypt] |})) /\
  (selectKeyValue apiKeyId = mkResponse (Some stored) None ->
   fst (getDecryptedApiKey env apiKeyId w) = Returned None).
Proof.
  destruct (API_ENCRYPTION_KEY env) as [k|] eqn:Hk; simpl in Hunset.
  - (* set to the empty string *)
    split; [|split].
    + unfold createApiKey. simpl. rewrite Hk. simpl. rewrite Hunset.
      reflexivity.
    + intros Hp Hne. unfold updateApiKey. rewrite Hp, Hk. simpl.
      destruct (String.eqb_spec plain ""); [contradiction|]. simpl.
      rewrite Hunset. reflexivity.
    + intros Hsel. unfold getDecryptedApiKey. run_async.
      rewrite Hsel, Hk. simpl. rewrite Hunset. reflexivity.
  - (* not set *)
    split; [|split].
    + unfold createApiKey. simpl. rewrite Hk. reflexivity.
    + intros Hp Hne. unfold updateApiKey. rewrite Hp, Hk. simpl.
      destruct (String.eqb_spec plain ""); [contradiction|]. reflexivity.
    + intros Hsel. unfold getDecryptedApiKey. run_async.
      rewrite Hsel, Hk. reflexivity.
Qed.

Lemma no_master_key_no_plaintext_write_witness :
  requests (snd (@createApiKey acceptingBackend taggingEncryption
                   {| API_ENCRYPTION_KEY := Some "" |} plainKey false emptyWorld))
    = [] /\
  requests (snd (@updateApiKey acceptingBackend taggingEncryption noMasterKey
                   "key-1" rotateKey false emptyWorld))
    = [].
Proof.
  destruct (@no_master_key_no_plaintext_write acceptingBackend taggingEncryption
              {| API_ENCRYPTION_KEY := Some "" |} emptyWorld plainKey
              "key-1" rotateKey "app-next-key" "key-1" "stored" eq_refl)
    as [Hcreate _].
  destruct (@no_master_key_no_plaintext_write acceptingBackend taggingEncryption
              noMasterKey emptyWorld plainKey
              "key-1" rotateKey "app-next-key" "key-1" "stored" eq_refl)
    as [_ [Hupdate _]].
  split.
  - rewrite Hcreate. reflexivity.
  - rewrite Hupdate; [reflexivity | reflexivity | discriminate].
Defined.

(** X20.  What [createApiKey] writes for a plaintext key,
    [getDecryptedApiKey] reads back as that plaintext: when the encryption
    module decrypts what it encrypted for this value and key, and the
    backend hands back the [key_value] of the row it was sent, the decrypted
    result is the value the caller supplied. *)
Theorem created_key_decrypts_to_the_plaintext
    {supabase : Supabase} {encryption : Encryption}
    (env : ProcessEnv) (k c : string) (apiKey : NewApiKey)
    (apiKeyId : string) (w : World)
    (Hkey : API_ENCRYPTION_KEY env = Some k)
    (Hnonempty : k <> "")
    (Henc : encryptApiKey (new_key_value apiKey) k = Returned c)
    (Hdec : decryptApiKey c k = Returned (new_key_value apiKey))
    (Hstored : forall row,
       sent w (snd (createApiKey env apiKey false w)) [InsertKey row] ->
       selectKeyValue apiKeyId = mkResponse (Some (new_key_value row)) None) :
  fst (getDecryptedApiKey env apiKeyId (snd (createApiKey env apiKey false w)))
    = Returned (Some (new_key_value apiKey)).
Proof.
  assert (Hsent : sent w (snd (createApiKey env apiKey false w))
                    [InsertKey (withKeyValue apiKey c)]).
  { unfold sent, createApiKey. simpl. rewrite Hkey. simpl.
    destruct (String.eqb_spec k ""); [contradiction|].
    rewrite bind_call, Henc. apply insertAndRead_requests. }
  specialize (Hstored _ Hsent). simpl in Hstored.
  unfold getDecryptedApiKey. run_async. rewrite Hstored, Hkey. simpl.
  destruct (String.eqb_spec k ""); [contradiction|]. simpl.
  rewrite Hdec. reflexivity.
Qed.

Lemma created_key_decrypts_to_the_plaintext_witness :
  fst (@getDecryptedApiKey (backendHolding "master:app-plain-key")
         prefixingEncryption withMasterKey "key-1"
         (snd (@createApiKey (backendHolding "master:app-plain-key")
                 prefixingEncryption withMasterKey plainKey false emptyWorld)))
    = Returned (Some "app-plain-key").
Proof.
  apply (@created_key_decrypts_to_the_plaintext
           (backendHolding "master:app-plain-key") prefixingEncryption
           withMasterKey "master" "master:app-plain-key" plainKey "key-1"
           emptyWorld).
  - reflexivity.
  - discriminate.
  - reflexivity.
  - reflexivity.
  - intros row Hsent. vm_compute in Hsent. injection Hsent as <-. reflexivity.
Defined.

End ApiKeysLaws.
